(** * Duplex streaming verification harness: reference data, pumps, verifiers

    Shallow embedding of the Python example scripts
    [examples/common.py], [examples/aurora_loopback_host.py] and
    [examples/aurora_loopback_nullsrcsink.py].

    Conventions of the embedding:
    - Python integers are [Z] (unbounded); [np.uint32] values are [Z] in
      [0, 2^32) with the wrap-around of every arithmetic step written out
      through [uint32];
    - sample counts, buffer sizes and file cursors are [nat];
    - a call that may raise returns an [outcome]; loops that Python does not
      bound are driven by a fuel argument and report [OutOfFuel] when it is
      used up;
    - mutable objects (files, the transmit buffer, the streamers) are
      threaded through the calls as explicit state. *)

From Stdlib Require Import Ascii.
From stdpp Require Import base numbers list strings pretty.

Local Open Scope Z_scope.

(** ** Python outcomes *)

(** Result of running a Python call: a returned value, a raised exception,
    or (for the fuel-driven loops only) exhaustion of the fuel. *)
Inductive outcome (E A : Type) : Type :=
| Returned (a : A)
| Raised (e : E)
| OutOfFuel.

Arguments Returned {E A} a.
Arguments Raised {E A} e.
Arguments OutOfFuel {E A}.

(** ** [np.uint32] arithmetic *)

(** Wrap-around of a 32 bit unsigned numpy scalar. *)
Definition uint32 (x : Z) : Z := x mod 2 ^ 32.

(** ** examples/common.py *)

Module Common.

(** A Python exception, by the name of its class and its message.
    [NullSrcSinkReferenceData] raises none: its [__init__] is a single
    subtraction. *)
Inductive exn : Type :=
| PyException (class_name msg : string).

(** [NullSrcSinkReferenceData] right after [__init__]: only [mask] is set. *)
Record NullSrcSinkReferenceData : Type := {
  mask : Z
}.

(** The same object after [__iter__] has (re)initialised the counters. *)
Record NullSrcSinkReferenceIter : Type := {
  it_mask : Z;
  iteration : Z;
  line : Z;
  hi : Z;
  lo : Z
}.

(** [__init__(self, words_per_line)]: [self.mask = words_per_line - 1]. *)
Definition NullSrcSinkReferenceData_init (words_per_line : Z)
  : outcome exn NullSrcSinkReferenceData :=
  Returned {| mask := words_per_line - 1 |}.

(** [__iter__(self)]: reset [iteration], [line], [hi], [lo]; return self. *)
Definition NullSrcSinkReferenceData_iter (self : NullSrcSinkReferenceData)
  : NullSrcSinkReferenceIter :=
  {| it_mask := mask self;
     iteration := 0;
     line := 0;
     hi := uint32 0x00000000;
     lo := uint32 0x0000FFFF |}.

(** The test of [__next__]: [(self.iteration & self.mask) == self.mask]. *)
Definition line_change (self : NullSrcSinkReferenceIter) : bool :=
  Z.land (iteration self) (it_mask self) =? it_mask self.

(** [__next__(self)]: the returned word and the updated object. *)
Definition NullSrcSinkReferenceData_next (self : NullSrcSinkReferenceIter)
  : Z * NullSrcSinkReferenceIter :=
  let retval := Z.lor (hi self) (lo self) in
  let self1 :=
    if line_change self then
      {| it_mask := it_mask self;
         iteration := iteration self;
         line := line self + 1;
         hi := Z.land (uint32 (hi self + 0x00010000)) 0xFFFF0000;
         lo := Z.land (uint32 (lo self - 0x00000001)) 0x0000FFFF |}
    else self in
  (retval,
   {| it_mask := it_mask self1;
      iteration := iteration self1 + 1;
      line := line self1;
      hi := hi self1;
      lo := lo self1 |}).

(** [n] successive calls of [next]: the words produced, oldest first, and
    the object afterwards. *)
Fixpoint next_n (n : nat) (self : NullSrcSinkReferenceIter)
  : list Z * NullSrcSinkReferenceIter :=
  match n with
  | O => ([], self)
  | S n' =>
      let '(w, self') := NullSrcSinkReferenceData_next self in
      let '(ws, self'') := next_n n' self' in
      (w :: ws, self'')
  end.

(** [iter(NullSrcSinkReferenceData(words_per_line))], which cannot raise. *)
Definition fresh (words_per_line : Z) : NullSrcSinkReferenceIter :=
  NullSrcSinkReferenceData_iter {| mask := words_per_line - 1 |}.

(** State invariant of the counter pair: [hi] holds a 16 bit count [a] in its
    upper half, [lo] holds [0xFFFF - a]. *)
Definition counters_ok (self : NullSrcSinkReferenceIter) : Prop :=
  Z.land (hi self) 0xFFFF = 0 /\
  Z.shiftr (lo self) 16 = 0 /\
  0 <= lo self /\
  (Z.shiftr (hi self) 16 + lo self) mod 2 ^ 16 = 0xFFFF.

(** The self-check a single emitted word satisfies. *)
Definition word_ok (w : Z) : Prop :=
  (Z.shiftr w 16 + Z.land w 0xFFFF) mod 2 ^ 16 = 0xFFFF.

(** The counter pair in arithmetic form: [hi = 2^16 * a] and
    [lo = 0xFFFF - a] for one 16 bit count [a]. *)
Definition counters_at (a : Z) (self : NullSrcSinkReferenceIter) : Prop :=
  0 <= a < 2 ^ 16 /\ hi self = 2 ^ 16 * a /\ lo self = 0xFFFF - a.

End Common.

(** ** A state-and-exception monad for the stateful scripts *)

(** A computation over a world [W] that may raise an [E]: it always hands
    back the world as it was when it stopped, so what had (not) happened
    before an exception can be read off. *)
Definition M (W E A : Type) : Type := W -> outcome E A * W.

Global Instance M_ret {W E} : MRet (M W E) :=
  fun A (a : A) (w : W) => (Returned a, w).

Global Instance M_bind {W E} : MBind (M W E) :=
  fun A B (k : A -> M W E B) (m : M W E A) (w : W) =>
    match m w with
    | (Returned a, w') => k a w'
    | (Raised e, w') => (Raised e, w')
    | (OutOfFuel, w') => (OutOfFuel, w')
    end.

Definition raise {W E A} (e : E) : M W E A := fun w => (Raised e, w).
Definition out_of_fuel {W E A} : M W E A := fun w => (OutOfFuel, w).
Definition modify {W E} (f : W -> W) : M W E unit := fun w => (Returned tt, f w).

(** [for x in xs: body x]. *)
Fixpoint for_each {W E A} (xs : list A) (body : A -> M W E unit) : M W E unit :=
  match xs with
  | [] => mret tt
  | x :: xs' => body x ;; for_each xs' body
  end.

(** ** examples/aurora_loopback_host.py *)

Module Host.

Local Open Scope nat_scope.

(** One element of the streamed arrays: [CPU_NUMPY_MAPPING] gives every
    stream type the structured dtype [("re", int), ("im", int)]. *)
Definition sample : Type := (Z * Z)%type.

(** An open binary file holding whole samples: its name, its content and
    the read/write cursor, counted in samples. *)
Record file : Type := {
  name : string;
  content : list sample;
  pos : nat
}.

(** [f.seek(offset)]. *)
Definition seek (f : file) (offset : nat) : file :=
  {| name := name f; content := content f; pos := offset |}.

(** [np.fromfile(f, count=count, dtype=dtype)]: up to [count] samples from
    the cursor on, and the file with its cursor behind them.  [count] is a
    buffer size here, never negative (numpy reads the whole file for a
    negative count). *)
Definition fromfile (f : file) (count : nat) : list sample * file :=
  let buffer := take count (drop (pos f) (content f)) in
  (buffer, {| name := name f; content := content f; pos := pos f + length buffer |}).

(** [data.tofile(f)]: write [data] at the cursor. *)
Definition tofile (data : list sample) (f : file) : file :=
  {| name := name f;
     content := take (pos f) (content f) ++ data
                  ++ drop (pos f + length data) (content f);
     pos := pos f + length data |}.

(** A two-dimensional numpy array: [shape] and the rows. *)
Record ndarray : Type := {
  shape : nat * nat;
  rows : list (list sample)
}.

(** [np.zeros((n, m), dtype)]. *)
Definition zeros (n m : nat) : ndarray :=
  {| shape := (n, m); rows := replicate n (replicate m (0%Z, 0%Z)) |}.

(** The rows agree with the shape. *)
Definition ndarray_wf (a : ndarray) : Prop :=
  length (rows a) = (shape a).1 /\
  Forall (fun row => length row = (shape a).2) (rows a).

(** [a[:, lo:hi]]. *)
Definition columns (a : ndarray) (lo hi : nat) : list (list sample) :=
  (fun row => drop lo (take hi row)) <$> rows a.

(** Samples per channel of a slice handed to [send]. *)
Definition nsamps (slice : list (list sample)) : nat :=
  match slice with
  | [] => 0
  | row :: _ => length row
  end.

(** What the exceptions of this script say.  The f-strings of the source
    are kept as their fields:
    - [ReferenceEOF name iteration processed]: "Reference file {name} reached
      EOF early, iteration {iteration}, number of processed samples:
      {processed}";
    - [ReceivedEOF name processed]: "Received file {name} reached EOF early,
      number of processed samples {processed}";
    - [ArrayMismatch processed reference received]: "array mismatch - number
      of processed samples: {processed}, reference data: {reference},
      received data: {received}";
    - [NoMessage]: a bare [assert]. *)
Inductive message : Type :=
| NoMessage
| ReferenceEOF (file_name : string) (iteration processed_samples : nat)
| ReceivedEOF (file_name : string) (processed_samples : nat)
| ArrayMismatch (processed_samples : nat) (reference received : list sample).

(** The exceptions the modelled functions raise. *)
Inductive exn : Type :=
| AssertionError (m : message)
| EOFError (m : message)
| IndexError
| UnboundLocalError (variable : string).

(** *** The transmit pump *)

Section Transmit.

(** The transmit streamer: its state and [tx_streamer.send(buff, tx_md,
    timeout)], which returns the number of samples per channel it took. *)
Context {tx_state : Type}.
Variable send : tx_state -> list (list sample) -> nat * tx_state.

(** What [tx_function] works on: the streamer, [tx_buffer], [files], and
    the slices handed to [send] so far (oldest first). *)
Record tx_world : Type := {
  tx_streamer : tx_state;
  tx_buffer : ndarray;
  tx_files : list file;
  tx_sends : list (list (list sample))
}.

Definition set_tx_file (idx : nat) (f : file) (w : tx_world) : tx_world :=
  {| tx_streamer := tx_streamer w;
     tx_buffer := tx_buffer w;
     tx_files := <[idx := f]> (tx_files w);
     tx_sends := tx_sends w |}.

Definition set_tx_row (idx : nat) (row : list sample) (w : tx_world) : tx_world :=
  {| tx_streamer := tx_streamer w;
     tx_buffer := {| shape := shape (tx_buffer w);
                     rows := <[idx := row]> (rows (tx_buffer w)) |};
     tx_files := tx_files w;
     tx_sends := tx_sends w |}.

(** [files[idx]]. *)
Definition tx_file (idx : nat) : M tx_world exn file :=
  fun w => match tx_files w !! idx with
           | Some f => (Returned f, w)
           | None => (Raised IndexError, w)
           end.

(** [files[idx].seek(0)]. *)
Definition tx_seek0 (idx : nat) : M tx_world exn unit :=
  f ← tx_file idx;
  modify (set_tx_file idx (seek f 0)).

(** [np.fromfile(files[idx], count=buffer_size, dtype=tx_buffer.dtype)]. *)
Definition tx_fromfile (idx buffer_size : nat) : M tx_world exn (list sample) :=
  f ← tx_file idx;
  let '(buffer, f') := fromfile f buffer_size in
  modify (set_tx_file idx f') ;;
  mret buffer.

(** [tx_buffer[idx, :buffer_len_current] = buffer], where the source has
    made sure that [len(buffer) == buffer_len_current]. *)
Definition tx_store (idx : nat) (buffer : list sample) : M tx_world exn unit :=
  fun w => match rows (tx_buffer w) !! idx with
           | Some row =>
               (Returned tt, set_tx_row idx (buffer ++ drop (length buffer) row) w)
           | None => (Raised IndexError, w)
           end.

(** [tx_streamer.send(tx_buffer[:, lo:hi], tx_md, timeout)]. *)
Definition tx_send (lo hi : nat) : M tx_world exn nat :=
  fun w =>
    let slice := columns (tx_buffer w) lo hi in
    let '(transmitted, st) := send (tx_streamer w) slice in
    (Returned transmitted,
     {| tx_streamer := st;
        tx_buffer := tx_buffer w;
        tx_files := tx_files w;
        tx_sends := tx_sends w ++ [slice] |}).

(** The [for idx in range(num_chans)] loop that fills [tx_buffer] with one
    chunk; [buffer_len_current] is [None] while the variable is unbound. *)
Fixpoint read_channels (idxs : list nat) (buffer_size : nat)
    (buffer_len_current : option nat) : M tx_world exn (option nat) :=
  match idxs with
  | [] => mret buffer_len_current
  | idx :: idxs' =>
      buffer ← tx_fromfile idx buffer_size;
      len ← (if idx =? 0 then mret (length buffer)
             else match buffer_len_current with
                  | None => raise (UnboundLocalError "buffer_len_current")
                  | Some len =>
                      if length buffer =? len then mret len
                      else raise (AssertionError NoMessage)
                  end);
      tx_store idx buffer ;;
      read_channels idxs' buffer_size (Some len)
  end.

(** [while num_tx_current < buffer_len_current: ...]; returns [num_tx].
    ([num_tx_iteration] of the source is only ever added to, never read.) *)
Fixpoint send_loop (fuel : nat) (buffer_len_current num_tx_current num_tx : nat)
  : M tx_world exn nat :=
  match fuel with
  | O => out_of_fuel
  | S fuel' =>
      if num_tx_current <? buffer_len_current then
        transmitted ← tx_send num_tx_current buffer_len_current;
        send_loop fuel' buffer_len_current
          (num_tx_current + transmitted) (num_tx + transmitted)
      else mret num_tx
  end.

(** The [while True] loop of one iteration, up to its [break]; returns
    [num_tx].  [budget] is the fuel of every inner send loop. *)
Fixpoint chunk_loop (budget fuel : nat) (num_chans buffer_size num_tx : nat)
  : M tx_world exn nat :=
  match fuel with
  | O => out_of_fuel
  | S fuel' =>
      bound ← read_channels (seq 0 num_chans) buffer_size None;
      match bound with
      | None => raise (UnboundLocalError "buffer_len_current")
      | Some buffer_len_current =>
          if buffer_len_current =? 0 then mret num_tx
          else
            num_tx' ← send_loop budget buffer_len_current 0 num_tx;
            chunk_loop budget fuel' num_chans buffer_size num_tx'
      end
  end.

(** The outer [while iteration < iterations] loop. *)
Fixpoint iteration_loop (budget fuel : nat)
    (num_chans buffer_size iterations iteration num_tx : nat)
  : M tx_world exn nat :=
  match fuel with
  | O => out_of_fuel
  | S fuel' =>
      if iteration <? iterations then
        for_each (seq 0 num_chans) tx_seek0 ;;
        num_tx' ← chunk_loop budget budget num_chans buffer_size num_tx;
        iteration_loop budget fuel' num_chans buffer_size iterations
          (iteration + 1) num_tx'
      else mret num_tx
  end.

(** [tx_function(tx_streamer, tx_buffer, tx_md, timeout, files, iterations)];
    the first four arguments and [files] are the world, and [fuel] bounds
    the number of rounds of each of its [while] loops. *)
Definition tx_function (fuel : nat) (iterations : nat) : M tx_world exn nat :=
  fun w =>
    let num_chans := (shape (tx_buffer w)).1 in
    let buffer_size := (shape (tx_buffer w)).2 in
    iteration_loop fuel fuel num_chans buffer_size iterations 0 0 w.

End Transmit.

Arguments tx_world : clear implicits.

(** [ceil(a / b)]. *)
Definition ceil_div (a b : nat) : nat := (a + b - 1) / b.

(** What the transmit pump assumes of the streamer: a [send] of a
    non-empty slice takes at least one sample per channel and at most the
    samples it was offered. *)
Definition send_takes_some {tx_state : Type}
    (send : tx_state -> list (list sample) -> nat * tx_state) : Prop :=
  forall st slice,
    0 < nsamps slice -> 1 <= (send st slice).1 <= nsamps slice.

(** Every file holds [size] samples; those of index below [i] have their
    cursor at [done], the others satisfy [todo]. *)
Definition files_upto (size i done : nat) (todo : file -> Prop)
    (fs : list file) : Prop :=
  forall idx f,
    fs !! idx = Some f ->
    length (content f) = size /\
    (idx < i -> pos f = done) /\
    (i <= idx -> todo f).

(** The world of a transmit pump with [num_chans] channels, a buffer of
    [buffer_size] samples per channel and one file of [size] samples per
    channel, part-way through a loop over the channels. *)
Definition tx_inv {tx_state : Type} (num_chans buffer_size size i done : nat)
    (todo : file -> Prop) (w : tx_world tx_state) : Prop :=
  shape (tx_buffer w) = (num_chans, buffer_size) /\
  ndarray_wf (tx_buffer w) /\
  length (tx_files w) = num_chans /\
  files_upto size i done todo (tx_files w).

(** The same world between two chunks: every cursor is at [p]. *)
Definition tx_at {tx_state : Type} (num_chans buffer_size size p : nat)
    (w : tx_world tx_state) : Prop :=
  tx_inv num_chans buffer_size size num_chans p (fun _ => True) w.

(** A simulated streamer for the transmit pump: it takes at most [limit]
    samples per call and counts its calls. *)
Definition limited_send (limit : nat) (calls : nat)
    (slice : list (list sample)) : nat * nat :=
  (min limit (nsamps slice), S calls).

(** A one-channel world: a file of five samples, a buffer of two. *)
Definition tx_world_5_2 : tx_world nat :=
  {| tx_streamer := 0;
     tx_buffer := zeros 1 2;
     tx_files := [ {| name := "in.dat";
                      content := [(1, 0); (2, 0); (3, 0); (4, 0); (5, 0)]%Z;
                      pos := 0 |} ];
     tx_sends := [] |}.

(** A two-channel world in the middle of a pass: two samples of each file
    are read, the first file has one sample left, the second none. *)
Definition tx_world_uneven : tx_world nat :=
  {| tx_streamer := 1;
     tx_buffer := zeros 2 2;
     tx_files := [ {| name := "in-chan0.dat";
                      content := [(1, 0); (2, 0); (3, 0)]%Z; pos := 2 |};
                   {| name := "in-chan1.dat";
                      content := [(1, 0); (2, 0)]%Z; pos := 2 |} ];
     tx_sends := [ [[(1, 0); (2, 0)]; [(1, 0); (2, 0)]]%Z ] |}.

(** *** The receive pump *)

(** Modelled from the spec: the error codes of the transport's receive
    metadata, [uhd.types.RXMetadataErrorCode], which the vendor driver
    declares and the repository only uses: none, timeout, overflow, and any
    other code. *)
Inductive RXMetadataErrorCode : Type :=
| none
| timeout
| overflow
| other (code : Z).

Global Instance RXMetadataErrorCode_eq_dec : EqDecision RXMetadataErrorCode.
Proof. solve_decision. Defined.

(** [rx_md] as the receive pump reads it after a [recv]. *)
Record RXMetadata : Type := {
  error_code : RXMetadataErrorCode;
  out_of_sequence : bool;
  strerror : string
}.

Section Receive.

(** The receive streamer: its state and [rx_streamer.recv(rx_buffer, rx_md,
    timeout)], which fills the buffer's rows, sets [rx_md] and returns the
    number of samples per channel it delivered.  [error_code_name] is the
    [name] attribute of an error code. *)
Context {rx_state : Type}.
Variable recv : rx_state -> ndarray -> (ndarray * RXMetadata * nat) * rx_state.
Variable error_code_name : RXMetadataErrorCode -> string.

(** What [rx_function] works on: the streamer, [rx_buffer], [files], and
    the lines printed so far (oldest first). *)
Record rx_world : Type := {
  rx_streamer : rx_state;
  rx_buffer : ndarray;
  rx_files : list file;
  stdout : list string
}.

(** [print(text)]. *)
Definition print (text : string) : M rx_world exn unit :=
  modify (fun w =>
    {| rx_streamer := rx_streamer w;
       rx_buffer := rx_buffer w;
       rx_files := rx_files w;
       stdout := stdout w ++ [text] |}).

(** [rx_streamer.recv(rx_buffer, rx_md, timeout)]. *)
Definition rx_recv : M rx_world exn (nat * RXMetadata) :=
  fun w =>
    let '(buffer, rx_md, received, st) := recv (rx_streamer w) (rx_buffer w) in
    (Returned (received, rx_md),
     {| rx_streamer := st;
        rx_buffer := buffer;
        rx_files := rx_files w;
        stdout := stdout w |}).

(** [rx_buffer[idx, :received].tofile(files[idx])]. *)
Definition rx_tofile (received idx : nat) : M rx_world exn unit :=
  fun w =>
    match rows (rx_buffer w) !! idx, rx_files w !! idx with
    | Some row, Some f =>
        (Returned tt,
         {| rx_streamer := rx_streamer w;
            rx_buffer := rx_buffer w;
            rx_files := <[idx := tofile (take received row) f]> (rx_files w);
            stdout := stdout w |})
    | _, _ => (Raised IndexError, w)
    end.

(** The [while num_rx < num_samples] loop. *)
Fixpoint rx_loop (fuel : nat) (num_chans num_samples num_rx : nat)
    (reported_overflow : bool) : M rx_world exn nat :=
  match fuel with
  | O => out_of_fuel
  | S fuel' =>
      if num_rx <? num_samples then
        '(received, rx_md) ← rx_recv;
        let num_rx := num_rx + received in
        for_each (seq 0 num_chans) (rx_tofile received) ;;
        if bool_decide (error_code rx_md = timeout) then
          print "RX timeout" ;;
          mret num_rx
        else
          reported_overflow ←
            (if bool_decide (error_code rx_md = overflow) then
               if negb reported_overflow then
                 let error_name :=
                   if out_of_sequence rx_md then "out-of-sequence"
                   else error_code_name (error_code rx_md) in
                 print ("Got an " +:+ error_name +:+ " indication.") ;;
                 mret true
               else mret reported_overflow
             else mret reported_overflow);
          if bool_decide (error_code rx_md ≠ none) then
            print ("Got an error indication: " +:+ strerror rx_md) ;;
            mret num_rx
          else rx_loop fuel' num_chans num_samples num_rx reported_overflow
      else mret num_rx
  end.

(** [rx_function(rx_streamer, rx_buffer, rx_md, timeout, files,
    num_samples)]; the first four arguments and [files] are the world. *)
Definition rx_function (fuel : nat) (num_samples : nat) : M rx_world exn nat :=
  fun w => rx_loop fuel (shape (rx_buffer w)).1 num_samples 0 false w.

End Receive.

Arguments rx_world : clear implicits.

(** A simulated transport for the receive pump: the answers of the
    successive [recv] calls, each a sample count and the metadata; the
    delivered samples are zeros.  Once the script is used up, [recv] times
    out with nothing received. *)
Definition scripted_recv (script : list (nat * RXMetadata)) (buffer : ndarray)
  : (ndarray * RXMetadata * nat) * list (nat * RXMetadata) :=
  match script with
  | [] => (buffer, {| error_code := timeout; out_of_sequence := false;
                      strerror := "ERROR_CODE_TIMEOUT" |}, 0, [])
  | (received, rx_md) :: script' =>
      ({| shape := shape buffer;
          rows := (fun row => replicate received (0%Z, 0%Z) ++ drop received row)
                    <$> rows buffer |},
       rx_md, received, script')
  end.

(** The [name] of an error code as the simulated transport spells it. *)
Definition scripted_name (code : RXMetadataErrorCode) : string :=
  match code with
  | none => "none"
  | timeout => "timeout"
  | overflow => "overflow"
  | other _ => "other"
  end.

(** Metadata of a [recv] without error, and of one reporting an overflow. *)
Definition md_none : RXMetadata :=
  {| error_code := none; out_of_sequence := false; strerror := "ERROR_CODE_NONE" |}.
Definition md_overflow : RXMetadata :=
  {| error_code := overflow; out_of_sequence := false;
     strerror := "ERROR_CODE_OVERFLOW" |}.

(** A one-channel world for the receive pump whose transport reports one
    overflow, with two samples, and then delivers two samples twice without
    error. *)
Definition rx_world_overflow : rx_world (list (nat * RXMetadata)) :=
  {| rx_streamer := [(2, md_overflow); (2, md_none); (2, md_none)];
     rx_buffer := zeros 1 4;
     rx_files := [ {| name := "out.dat"; content := []; pos := 0 |} ];
     stdout := [] |}.

(** *** Mirror-mode verification *)

(** The [while processed_samples < num_samples_total] loop of [compare]. *)
Fixpoint compare_loop (fuel : nat) (reference_file received_file : file)
    (num_samples_total num_iterations buffer_size : nat)
    (processed_samples iteration : nat) : outcome exn unit :=
  match fuel with
  | O => OutOfFuel
  | S fuel' =>
      if processed_samples <? num_samples_total then
        let '(reference, reference_file') := fromfile reference_file buffer_size in
        if length reference =? 0 then
          if iteration <? num_iterations then
            compare_loop fuel' (seek reference_file' 0) received_file
              num_samples_total num_iterations buffer_size
              processed_samples (iteration + 1)
          else
            Raised (EOFError
              (ReferenceEOF (name reference_file) iteration processed_samples))
        else
          let '(received, received_file') := fromfile received_file buffer_size in
          if length received =? 0 then
            Raised (EOFError (ReceivedEOF (name received_file) processed_samples))
          else if bool_decide (reference = received) then
            compare_loop fuel' reference_file' received_file'
              num_samples_total num_iterations buffer_size
              (processed_samples + length reference) iteration
          else
            Raised (AssertionError
              (ArrayMismatch processed_samples reference received))
      else Returned tt
  end.

(** [compare(reference_file, received_file, num_samples_total,
    num_iterations, buffer_size, dtype)].  Every round of the loop either
    rewinds (at most [num_iterations] times) or processes at least one
    sample, so [num_samples_total + num_iterations + 1] rounds are enough
    ([compare_terminates] below). *)
Definition compare (reference_file received_file : file)
    (num_samples_total num_iterations buffer_size : nat) : outcome exn unit :=
  compare_loop (num_samples_total + num_iterations + 1)
    reference_file received_file
    num_samples_total num_iterations buffer_size 0 0.

(** The sample offset an exception of [compare] reports, if any. *)
Definition reported_offset (r : outcome exn unit) : option nat :=
  match r with
  | Raised (AssertionError (ArrayMismatch processed _ _)) => Some processed
  | Raised (EOFError (ReferenceEOF _ _ processed)) => Some processed
  | Raised (EOFError (ReceivedEOF _ processed)) => Some processed
  | _ => None
  end.

End Host.

(** ** examples/aurora_loopback_nullsrcsink.py *)

Module NullSrcSink.

Import Common.

(** The character of one digit, as Python's [d] and [x] presentations
    print it. *)
Definition digit_char (d : Z) : Ascii.ascii :=
  match d with
  | 0 => "0" | 1 => "1" | 2 => "2" | 3 => "3" | 4 => "4"
  | 5 => "5" | 6 => "6" | 7 => "7" | 8 => "8" | 9 => "9"
  | 10 => "a" | 11 => "b" | 12 => "c" | 13 => "d" | 14 => "e"
  | _ => "f"
  end%char.

(** The digits of a non-negative [n] in [base], most significant first. *)
Fixpoint digits (fuel : nat) (base n : Z) (acc : string) : string :=
  let acc' := String (digit_char (n mod base)) acc in
  match fuel with
  | O => acc'
  | S fuel' => if n / base =? 0 then acc' else digits fuel' base (n / base) acc'
  end.

(** Left padding with zeros up to [width] characters. *)
Definition zero_pad (width : nat) (s : string) : string :=
  String.concat "" (replicate (width - String.length s) "0"%string) +:+ s.

(** [f"{n:0{width}d}"] for [base = 10] and [f"{n:0{width}x}"] for
    [base = 16]: the sign first, then zeros, then the digits. *)
Definition format_int (base : Z) (width : nat) (n : Z) : string :=
  let body := digits (Z.to_nat (Z.log2 (Z.abs n))) base (Z.abs n) "" in
  if n <? 0 then "-" +:+ zero_pad (width - 1) body else zero_pad width body.

(** The message of a mismatch: [f"mismatch in line {line:02d} expected:
    0x{reference:08x}, received: 0x{dat:08x}"]. *)
Definition mismatch_message (line reference dat : Z) : string :=
  "mismatch in line " +:+ format_int 10 2 line
    +:+ " expected: 0x" +:+ format_int 16 8 reference
    +:+ ", received: 0x" +:+ format_int 16 8 dat.

(** The [for dat in rx_data] loop of [_verify_data]. *)
Fixpoint verify_loop (null_ref : NullSrcSinkReferenceIter) (rx_data : list Z)
  : bool * string :=
  match rx_data with
  | [] => (true, ""%string)
  | dat :: rx_data' =>
      let '(reference, null_ref') := NullSrcSinkReferenceData_next null_ref in
      if negb (dat =? reference) then
        (false, mismatch_message (line null_ref') reference dat)
      else verify_loop null_ref' rx_data'
  end.

(** [_verify_data(rx_data)]. *)
Definition _verify_data (rx_data : list Z) : outcome Common.exn (bool * string) :=
  match NullSrcSinkReferenceData_init 2 with
  | Returned data => Returned (verify_loop (NullSrcSinkReferenceData_iter data) rx_data)
  | Raised e => Raised e
  | OutOfFuel => OutOfFuel
  end.

(** The line a word of the stream belongs to, for [words_per_line = 2]:
    words [2k] and [2k+1] are line [k] (the listing in the docstring of
    [_verify_data]). *)
Definition line_of_word (index : nat) : Z := Z.of_nat index / 2.

End NullSrcSink.

(** ** The other functions of the three scripts *)

Module Scripts.

Import Host.
Local Open Scope nat_scope.

(** *** [rx_streamer_flush] ([examples/common.py], and again in
    [examples/aurora_loopback_nullsrcsink.py]) *)

Section Flush.

(** The receive streamer, as for the receive pump. *)
Context {rx_state : Type}.
Variable recv : rx_state -> ndarray -> (ndarray * RXMetadata * nat) * rx_state.

(** The [while num_rx != 0] loop; [num_rx] is [None] before the first
    [recv].  Returns the streamer and [num_rx_total], or [None] when the
    fuel is used up. *)
Fixpoint flush_loop (fuel : nat) (st : rx_state) (rx_data : ndarray)
    (num_rx : option nat) (num_rx_total : nat) : option (rx_state * nat) :=
  match fuel with
  | O => None
  | S fuel' =>
      if bool_decide (num_rx <> Some 0) then
        let '(rx_data', _, received, st') := recv st rx_data in
        flush_loop fuel' st' rx_data' (Some received) (num_rx_total + received)
      else Some (st, num_rx_total)
  end.

(** [rx_streamer_flush(rx_streamer)]: the streamer afterwards and the
    lines printed; [num_channels] is [rx_streamer.get_num_channels()]. *)
Definition rx_streamer_flush (fuel : nat) (num_channels : nat)
    (st : rx_state) (stdout : list string)
  : outcome exn (rx_state * list string) :=
  match flush_loop fuel st (zeros num_channels (Z.to_nat 10000000)) None 0 with
  | None => OutOfFuel
  | Some (st', num_rx_total) =>
      Returned (st',
                if 0 <? num_rx_total then
                  stdout ++ ["Flushed " +:+ pretty num_rx_total
                               +:+ " samples from RX streamer"]
                else stdout)
  end.

End Flush.

(** The samples the answers of a script deliver in all. *)
Definition script_total (script : list (nat * RXMetadata)) : nat :=
  sum_list (fst <$> script).

(** *** What the receive pump relies on *)

(** A transport that is delivering: every [recv] into a buffer of the
    pump's shape reports no error and between one sample and a buffer full
    of them, and leaves the buffer in shape. *)
Definition recv_delivers {rx_state : Type}
    (recv : rx_state -> ndarray -> (ndarray * RXMetadata * nat) * rx_state)
    (num_chans buffer_size : nat) : Prop :=
  forall st buffer,
    shape buffer = (num_chans, buffer_size) -> ndarray_wf buffer ->
    error_code (recv st buffer).1.1.2 = none /\
    1 <= (recv st buffer).1.2 <= buffer_size /\
    shape (recv st buffer).1.1.1 = (num_chans, buffer_size) /\
    ndarray_wf (recv st buffer).1.1.1.

(** Every file has its cursor at its end; those of index below [i] hold
    [written + added] samples, the others [written]. *)
Definition rx_files_upto (i written added : nat) (fs : list file) : Prop :=
  forall idx f,
    fs !! idx = Some f ->
    pos f = length (content f) /\
    (idx < i -> length (content f) = written + added) /\
    (i <= idx -> length (content f) = written).

(** The world of a receive pump between two rounds: one file per channel,
    each holding the [written] samples received so far. *)
Definition rx_sync {rx_state : Type} (num_chans buffer_size written : nat)
    (w : rx_world rx_state) : Prop :=
  shape (rx_buffer w) = (num_chans, buffer_size) /\
  ndarray_wf (rx_buffer w) /\
  length (rx_files w) = num_chans /\
  rx_files_upto 0 written 0 (rx_files w).

(** A simulated transport that delivers [chunk] samples per call, without
    error, and counts its calls. *)
Definition steady_recv (chunk : nat) (calls : nat) (buffer : ndarray)
  : (ndarray * RXMetadata * nat) * nat :=
  (buffer, md_none, chunk, S calls).

(** A one-channel world for the receive pump with an empty output file. *)
Definition rx_world_fresh : rx_world nat :=
  {| rx_streamer := 0;
     rx_buffer := zeros 1 4;
     rx_files := [ {| name := "out.dat"; content := []; pos := 0 |} ];
     stdout := [] |}.

(** *** Streamers that keep a record *)

(** A transmit streamer that remembers every slice it was handed and how
    many samples of it it took. *)
Definition recording_send {tx_state : Type}
    (send : tx_state -> list (list sample) -> nat * tx_state)
    (st : tx_state * list (list (list sample) * nat))
    (slice : list (list sample))
  : nat * (tx_state * list (list (list sample) * nat)) :=
  ((send st.1 slice).1, ((send st.1 slice).2, st.2 ++ [(slice, (send st.1 slice).1)])).

(** The samples of channel [idx] that a recorded streamer took, in the
    order it took them. *)
Definition taken (idx : nat) (record : list (list (list sample) * nat))
  : list sample :=
  concat ((fun entry => take entry.2 (default [] (entry.1 !! idx))) <$> record).

(** The one-channel world [tx_world_5_2] with a recording streamer that
    has not been called yet. *)
Definition tx_world_recorded
  : tx_world (nat * list (list (list sample) * nat)) :=
  {| tx_streamer := (0, []);
     tx_buffer := tx_buffer tx_world_5_2;
     tx_files := tx_files tx_world_5_2;
     tx_sends := [] |}.

(** A receive streamer that remembers the buffer of every [recv] and how
    many samples it reported for it. *)
Definition recording_recv {rx_state : Type}
    (recv : rx_state -> ndarray -> (ndarray * RXMetadata * nat) * rx_state)
    (st : rx_state * list (list (list sample) * nat)) (buffer : ndarray)
  : (ndarray * RXMetadata * nat) * (rx_state * list (list (list sample) * nat)) :=
  ((recv st.1 buffer).1,
   ((recv st.1 buffer).2,
    st.2 ++ [(rows (recv st.1 buffer).1.1.1, (recv st.1 buffer).1.2)])).

(** A simulated transport that delivers [chunk] samples per call, each
    carrying the number of the call, without error. *)
Definition numbered_recv (chunk : nat) (calls : nat) (buffer : ndarray)
  : (ndarray * RXMetadata * nat) * nat :=
  ({| shape := shape buffer;
      rows := (fun row => replicate chunk (Z.of_nat calls, 0%Z) ++ drop chunk row)
                <$> rows buffer |},
   md_none, chunk, S calls).

(** The one-channel world [rx_world_fresh] with a recording streamer that
    has not been called yet. *)
Definition rx_world_recorded
  : rx_world (nat * list (list (list sample) * nat)) :=
  {| rx_streamer := (0, []);
     rx_buffer := rx_buffer rx_world_fresh;
     rx_files := rx_files rx_world_fresh;
     stdout := [] |}.

(** *** [get_filenames] ([examples/aurora_loopback_host.py]) *)

(** The exceptions of the functions below. *)
Inductive script_exn : Type :=
| ValueError (msg : string)
| NotImplementedError.

Section Filenames.

(** [os.path.splitext], of the Python library. *)
Variable splitext : string -> string * string.

(** [get_filenames(filenames, channels)] with the default [pattern],
    ["{}-chan{}{}"], which is what both callers use; [pretty] prints an
    integer the way [str.format] does. *)
Definition get_filenames (filenames : list string) (channels : list Z)
  : outcome script_exn (list string) :=
  let num_files_given := length filenames in
  let num_channels := length channels in
  if num_files_given =? num_channels then Returned filenames
  else if num_files_given =? 1 then
    let '(basename, ext) := splitext (default ""%string (head filenames)) in
    Returned ((fun chan => basename +:+ "-chan" +:+ pretty chan +:+ ext)
                <$> channels)
  else
    Raised (ValueError ("Cannot map " +:+ pretty num_files_given
                          +:+ " files to " +:+ pretty num_channels
                          +:+ " channels")).

End Filenames.

(** A stand-in for [os.path.splitext] on names with one dot: the part
    before the first dot, and the rest. *)
Fixpoint split_at_dot (name : string) : string * string :=
  match name with
  | EmptyString => (EmptyString, EmptyString)
  | String c rest =>
      if Ascii.eqb c "."%char then (EmptyString, name)
      else let '(base, ext) := split_at_dot rest in (String c base, ext)
  end.

(** *** [connect_blocks] (both loopback scripts) *)

(** [connect_blocks(graph, connections, is_back_edge)]: the calls
    [graph.connect(src_blk, src_port, dst_blk, dst_port, is_back_edge)] it
    adds to those the graph has seen. *)
Definition connect_blocks {block : Type}
    (graph : list (block * Z * block * Z * bool))
    (connections : list (block * Z)) (is_back_edge : bool)
  : list (block * Z * block * Z * bool) :=
  let src := take (length connections - 1) connections in
  let dst := drop 1 connections in
  graph ++ zip_with (fun s d => (s.1, s.2, d.1, d.2, is_back_edge)) src dst.

(** *** [ComplexCounterIter] ([examples/aurora_loopback_host.py]) *)

(** The two element types the counter supports. *)
Inductive real_dtype : Type := int8 | int16.

Definition bit_width (t : real_dtype) : Z :=
  match t with int8 => 8 | int16 => 16 end.

(** Wrap-around of a signed numpy scalar of the given type. *)
Definition wrap (t : real_dtype) (x : Z) : Z :=
  ((x + 2 ^ (bit_width t - 1)) mod 2 ^ bit_width t - 2 ^ (bit_width t - 1))%Z.

(** The object after [__init__], and after [__iter__]. *)
Record ComplexCounterIter : Type := {
  cc_real_dtype : real_dtype
}.

Record ComplexCounterState : Type := {
  real_type : real_dtype;
  real : Z;
  imag : Z
}.

(** [__init__(self, dtype)], given [str(dtype[0])]. *)
Definition ComplexCounterIter_init (dtype0 : string)
  : outcome script_exn ComplexCounterIter :=
  if String.eqb dtype0 "int8" then Returned {| cc_real_dtype := int8 |}
  else if String.eqb dtype0 "int16" then Returned {| cc_real_dtype := int16 |}
  else Raised NotImplementedError.

(** [__iter__(self)]: [real = real_dtype(0)], [imag = real_dtype(-1)]. *)
Definition ComplexCounterIter_iter (self : ComplexCounterIter)
  : ComplexCounterState :=
  {| real_type := cc_real_dtype self;
     real := wrap (cc_real_dtype self) 0;
     imag := wrap (cc_real_dtype self) (-1) |}.

(** [__next__(self)]. *)
Definition ComplexCounterIter_next (self : ComplexCounterState)
  : (Z * Z) * ComplexCounterState :=
  ((real self, imag self),
   {| real_type := real_type self;
      real := wrap (real_type self) (real self + 1);
      imag := wrap (real_type self) (imag self - 1) |}).

(** [np.fromiter(it, dtype, count=n)]: the first [n] values. *)
Fixpoint fromiter (n : nat) (self : ComplexCounterState) : list (Z * Z) :=
  match n with
  | O => []
  | S n' =>
      let '(value, self') := ComplexCounterIter_next self in
      value :: fromiter n' self'
  end.

(** *** The evaluation at the end of [main]
    ([examples/aurora_loopback_host.py]) *)

(** An entry of [errors]: a text, or [str(error)] of a failed
    comparison. *)
Inductive report : Type :=
| Text (text : string)
| Failure (m : message).

(** Step 8: the checks of the Aurora block's counters. *)
Definition check_statistics
    (aurora_tx_counter aurora_rx_counter
     aurora_overflow_counter aurora_crc_errors : Z) : list report :=
  let errors := [] in
  let errors :=
    if (aurora_rx_counter <? aurora_tx_counter)%Z then
      errors ++ [Text (pretty (aurora_tx_counter - aurora_rx_counter)%Z
                         +:+ " Packets got lost on Aurora link")]
    else errors in
  let errors :=
    if (0 <? aurora_overflow_counter)%Z then
      errors ++ [Text ("Aurora block reported " +:+ pretty aurora_overflow_counter
                         +:+ " overflows")]
    else errors in
  if (0 <? aurora_crc_errors)%Z then
    errors ++ [Text ("Aurora block reported " +:+ pretty aurora_crc_errors
                       +:+ " CRC errors")]
  else errors.

(** Step 9: the loop that verifies every channel.  Each channel comes
    with the name and content of its input and of its output file, which
    the loop opens afresh; only an [AssertionError] of [compare] is caught
    and recorded.  (The progress texts printed on the way are left out.) *)
Fixpoint verify_channels
    (channels : list ((string * list sample) * (string * list sample)))
    (num_rx iterations buffer_size : nat) (errors : list report)
  : outcome exn (list report) :=
  match channels with
  | [] => Returned errors
  | ((in_name, in_content), (out_name, out_content)) :: channels' =>
      let in_file := {| name := in_name; content := in_content; pos := 0 |} in
      let out_file := {| name := out_name; content := out_content; pos := 0 |} in
      match compare in_file out_file num_rx iterations buffer_size with
      | Returned _ =>
          verify_channels channels' num_rx iterations buffer_size errors
      | Raised (AssertionError m) =>
          verify_channels channels' num_rx iterations buffer_size
            (errors ++ [Failure m])
      | Raised e => Raised e
      | OutOfFuel => OutOfFuel
      end
  end.

(** The comparison step 9 runs for one channel. *)
Definition compare_channel
    (channel : (string * list sample) * (string * list sample))
    (num_rx iterations buffer_size : nat) : outcome exn unit :=
  compare {| name := channel.1.1; content := channel.1.2; pos := 0 |}
          {| name := channel.2.1; content := channel.2.2; pos := 0 |}
          num_rx iterations buffer_size.

(** Steps 8 and 9 and the exit: the process's exit status, 1 through
    [sys.exit(1)] when [errors] is not empty, else 0. *)
Definition evaluate
    (aurora_tx_counter aurora_rx_counter
     aurora_overflow_counter aurora_crc_errors : Z)
    (channels : list ((string * list sample) * (string * list sample)))
    (num_rx iterations buffer_size : nat) : outcome exn Z :=
  match verify_channels channels num_rx iterations buffer_size
          (check_statistics aurora_tx_counter aurora_rx_counter
             aurora_overflow_counter aurora_crc_errors) with
  | Returned errors => Returned (if 0 <? length errors then 1%Z else 0%Z)
  | Raised e => Raised e
  | OutOfFuel => OutOfFuel
  end.

End Scripts.

(** * Properties of the reference data ([examples/common.py]) *)

Section ReferenceData.

Import Common.

(** Masking with [0xFFFF] keeps the low 16 bits. *)
Lemma land_low16 (x : Z) : Z.land x 0x0000FFFF = x mod 2 ^ 16.
Proof. exact (Z.land_ones x 16 ltac:(lia)). Qed.

(** Masking a 32 bit value with [0xFFFF0000] clears the low 16 bits. *)
Lemma land_high16 (x : Z) :
  0 <= x < 2 ^ 32 -> Z.land x 0xFFFF0000 = 2 ^ 16 * (x / 2 ^ 16).
Proof.
  intros Hx. apply Z.bits_inj'. intros n Hn.
  rewrite Z.land_spec.
  change 0xFFFF0000 with (Z.shiftl (Z.ones 16) 16).
  rewrite (Z.mul_comm (2 ^ 16)).
  rewrite <- Z.shiftl_mul_pow2, <- Z.shiftr_div_pow2 by lia.
  destruct (Z.lt_ge_cases n 16) as [Hlow | Hhigh].
  - rewrite !Z.shiftl_spec_low by lia. apply andb_false_r.
  - rewrite !Z.shiftl_spec by lia.
    rewrite Z.shiftr_spec by lia.
    replace (n - 16 + 16) with n by lia.
    destruct (Z.lt_ge_cases n 32) as [Hin | Hout].
    + rewrite Z.ones_spec_low by lia. apply andb_true_r.
    + rewrite Z.ones_spec_high by lia. rewrite andb_false_r.
      symmetry. destruct (Z.eq_dec x 0) as [-> | Hnz]; [apply Z.bits_0 |].
      apply Z.bits_above_log2; [lia |].
      assert (Z.log2 x < 32) by (apply Z.log2_lt_pow2; lia). lia.
Qed.

(** A count in the upper half and a count in the lower half do not
    overlap: or-ing them adds them. *)
Lemma lor_halves (a l : Z) :
  0 <= a -> 0 <= l < 2 ^ 16 -> Z.lor (2 ^ 16 * a) l = 2 ^ 16 * a + l.
Proof.
  intros Ha Hl.
  assert (Hdisj : Z.land (2 ^ 16 * a) l = 0).
  { apply Z.bits_inj'. intros n Hn. rewrite Z.land_spec, Z.bits_0.
    destruct (Z.lt_ge_cases n 16) as [Hlow | Hhigh].
    - rewrite Z.mul_comm, Z.mul_pow2_bits_low by lia. reflexivity.
    - destruct (Z.eq_dec l 0) as [-> | Hnz];
        [rewrite Z.bits_0; apply andb_false_r |].
      rewrite (Z.bits_above_log2 l n); [apply andb_false_r | lia |].
      assert (Z.log2 l < 16) by (apply Z.log2_lt_pow2; lia). lia. }
  rewrite <- Z.lxor_lor by exact Hdisj.
  symmetry. apply Z.add_nocarry_lxor. exact Hdisj.
Qed.

Lemma counters_at_fresh (words_per_line : Z) :
  counters_at 0 (fresh words_per_line).
Proof. repeat split; reflexivity || lia. Qed.

(** One call of [next] keeps the pair in step, whatever the mask is. *)
Lemma counters_at_next (a : Z) (self : NullSrcSinkReferenceIter) :
  counters_at a self ->
  exists a', counters_at a' (NullSrcSinkReferenceData_next self).2.
Proof.
  intros (Ha & Hhi & Hlo).
  unfold counters_at, NullSrcSinkReferenceData_next.
  destruct (line_change self); cbn [snd hi lo];
    [| exists a; repeat split; assumption || lia].
  rewrite Hhi, Hlo. unfold uint32.
  destruct (Z.eq_dec a 0xFFFF) as [-> | Hne].
  - exists 0. repeat split; reflexivity || lia.
  - exists (a + 1).
    rewrite (Z.mod_small (2 ^ 16 * a + 0x10000)) by lia.
    rewrite (Z.mod_small (0xFFFF - a - 1)) by lia.
    rewrite land_high16 by lia. rewrite land_low16.
    rewrite (Z.mod_small (0xFFFF - a - 1)) by lia.
    replace (2 ^ 16 * a + 0x10000) with ((a + 1) * 2 ^ 16) by lia.
    rewrite Z.div_mul by lia.
    repeat split; lia.
Qed.

Lemma counters_at_ok (a : Z) (self : NullSrcSinkReferenceIter) :
  counters_at a self -> counters_ok self.
Proof.
  intros (Ha & Hhi & Hlo). unfold counters_ok.
  rewrite land_low16, !Z.shiftr_div_pow2 by lia.
  rewrite Hhi, Hlo.
  rewrite (Z.mul_comm (2 ^ 16) a), Z.mod_mul, Z.div_mul by lia.
  rewrite (Z.div_small (0xFFFF - a)) by lia.
  replace (a + (0xFFFF - a)) with 0xFFFF by lia.
  repeat split; try reflexivity. lia.
Qed.

Lemma counters_at_word (a : Z) (self : NullSrcSinkReferenceIter) :
  counters_at a self -> word_ok (NullSrcSinkReferenceData_next self).1.
Proof.
  intros (Ha & Hhi & Hlo). unfold word_ok, NullSrcSinkReferenceData_next.
  cbn [fst]. rewrite Hhi, Hlo, lor_halves by lia.
  rewrite land_low16, Z.shiftr_div_pow2 by lia.
  rewrite (Z.add_comm (2 ^ 16 * a)), (Z.mul_comm (2 ^ 16) a).
  rewrite Z.div_add, Z.mod_add by lia.
  rewrite Z.div_small, (Z.mod_small (0xFFFF - a)) by lia.
  replace (0 + a + (0xFFFF - a)) with 0xFFFF by lia. reflexivity.
Qed.

(** Any number of calls from a state in step leaves the state in step and
    emits self-checking words only. *)
Lemma next_n_counters (n : nat) :
  forall a self,
    counters_at a self ->
    Forall word_ok (next_n n self).1 /\
    exists a', counters_at a' (next_n n self).2.
Proof.
  induction n as [| n IH]; intros a self Hat; cbn [next_n].
  - split; [constructor | exists a; exact Hat].
  - pose proof (counters_at_word a self Hat) as Hword.
    destruct (counters_at_next a self Hat) as [a1 Hat1].
    destruct (NullSrcSinkReferenceData_next self) as [w self1].
    cbn [fst snd] in Hword, Hat1.
    destruct (IH a1 self1 Hat1) as [Hwords Hstate].
    destruct (next_n n self1) as [ws self2]. cbn [fst snd] in *.
    split; [constructor; assumption | exact Hstate].
Qed.

(** C2 (as the code has it): constructing the generator never fails, for
    zero like for every other [words_per_line]; no validation takes place
    and the mask is [words_per_line - 1]. *)
Theorem init_always_succeeds (words_per_line : Z) :
  NullSrcSinkReferenceData_init words_per_line
  = Returned {| mask := words_per_line - 1 |}.
Proof. reflexivity. Qed.

(** C2, refuted as stated: with [words_per_line = 0] the constructor
    returns an object (of mask [-1]) and raises nothing. *)
Lemma init_zero_does_not_fail :
  NullSrcSinkReferenceData_init 0 = Returned {| mask := -1 |} /\
  ~ (exists e, NullSrcSinkReferenceData_init 0 = Raised e).
Proof.
  split; [reflexivity |]. intros [e He]. discriminate He.
Qed.

(** C7: with [words_per_line = 2], the first six words of a freshly
    iterated generator are 0x0000FFFF twice, 0x0001FFFE twice and 0x0002FFFD
    twice, and the iteration starts from
    [(iteration, line, hi, lo) = (0, 0, 0x00000000, 0x0000FFFF)]. *)
Theorem first_six_words :
  (iteration (fresh 2), line (fresh 2), hi (fresh 2), lo (fresh 2))
  = (0, 0, 0x00000000, 0x0000FFFF) /\
  (next_n 6 (fresh 2)).1
  = [0x0000FFFF; 0x0000FFFF; 0x0001FFFE; 0x0001FFFE; 0x0002FFFD; 0x0002FFFD].
Proof. split; vm_compute; reflexivity. Qed.

(** C8: the counters wrap, they do not saturate: on a call of [next] that
    changes the line, [hi = 0xFFFF0000] becomes [0x00000000] and
    [lo = 0x00000000] becomes [0x0000FFFF]. *)
Theorem counters_wrap (self : NullSrcSinkReferenceIter) :
  line_change self = true ->
  (hi self = 0xFFFF0000 -> hi (NullSrcSinkReferenceData_next self).2 = 0x00000000) /\
  (lo self = 0x00000000 -> lo (NullSrcSinkReferenceData_next self).2 = 0x0000FFFF).
Proof.
  intros Hchange. unfold NullSrcSinkReferenceData_next.
  rewrite Hchange. cbn [snd hi lo].
  split; intros ->; reflexivity.
Qed.

(** The state in which both counters are about to wrap is the one a fresh
    generator with [words_per_line = 1] is in after 65535 words. *)
Lemma wrap_state_reached :
  (next_n (Z.to_nat 65535) (fresh 1)).2
  = {| it_mask := 0; iteration := 65535; line := 65535;
       hi := 0xFFFF0000; lo := 0x00000000 |}.
Proof. vm_compute. reflexivity. Qed.

Lemma counters_wrap_witness :
  let self := {| it_mask := 0; iteration := 65535; line := 65535;
                 hi := 0xFFFF0000; lo := 0x00000000 |} in
  hi (NullSrcSinkReferenceData_next self).2 = 0x00000000 /\
  lo (NullSrcSinkReferenceData_next self).2 = 0x0000FFFF.
Proof.
  intros self.
  destruct (counters_wrap self) as [Hhi Hlo]; [reflexivity |].
  split; [apply Hhi | apply Hlo]; reflexivity.
Defined.

(** C10: for [words_per_line = 2^k] and any number [n] of words taken from
    a fresh generator, the state keeps the low 16 bits of [hi] and the high
    16 bits of [lo] zero with [(hi >> 16) + lo = 0xFFFF] modulo 2^16, and
    every word [w] taken satisfies [(w >> 16) + (w & 0xFFFF) = 0xFFFF]
    modulo 2^16. *)
Theorem reference_words_self_checking (k n : nat) :
  counters_ok (next_n n (fresh (2 ^ Z.of_nat k))).2 /\
  Forall word_ok (next_n n (fresh (2 ^ Z.of_nat k))).1.
Proof.
  destruct (next_n_counters n 0 (fresh (2 ^ Z.of_nat k))
              (counters_at_fresh _)) as [Hwords [a Hat]].
  split; [exact (counters_at_ok a _ Hat) | exact Hwords].
Qed.

End ReferenceData.

(** * Properties of mirror-mode verification ([compare]) *)

Section Compare.

Import Host.
Local Open Scope nat_scope.

Implicit Types (l : list sample) (f : file).

(** [compare] never runs out of the fuel it gives its loop: each round
    rewinds or processes at least one sample. *)
Lemma compare_loop_fuel (fuel : nat) :
  forall reference_file received_file total iters bs processed iteration,
    (total - processed) + (iters - iteration) < fuel ->
    compare_loop fuel reference_file received_file total iters bs
      processed iteration <> OutOfFuel.
Proof.
  induction fuel as [| fuel IH]; intros rf cf total iters bs processed it Hfuel;
    [lia |].
  cbn [compare_loop].
  destruct (processed <? total) eqn:Hlt; [| discriminate].
  apply Nat.ltb_lt in Hlt.
  destruct (fromfile rf bs) as [reference rf'].
  destruct (length reference =? 0) eqn:Hempty.
  - destruct (it <? iters) eqn:Hit; [| discriminate].
    apply Nat.ltb_lt in Hit. apply IH. lia.
  - apply Nat.eqb_neq in Hempty.
    destruct (fromfile cf bs) as [received cf'].
    destruct (length received =? 0); [discriminate |].
    case_bool_decide; [| discriminate].
    apply IH. lia.
Qed.

Lemma compare_terminates reference_file received_file total iters bs :
  compare reference_file received_file total iters bs <> OutOfFuel.
Proof. apply compare_loop_fuel. lia. Qed.

(** One round over a chunk on which the two files agree. *)
Lemma compare_loop_equal_chunk fuel rn cn l l' p total iters bs it :
  0 < bs -> p < total -> p + bs <= length l ->
  take (p + bs) l = take (p + bs) l' ->
  compare_loop (S fuel)
    {| name := rn; content := l; pos := p |}
    {| name := cn; content := l'; pos := p |} total iters bs p it
  = compare_loop fuel
      {| name := rn; content := l; pos := p + bs |}
      {| name := cn; content := l'; pos := p + bs |} total iters bs (p + bs) it.
Proof.
  intros Hbs Hp Hlen Hagree.
  cbn [compare_loop]. rewrite (proj2 (Nat.ltb_lt _ _) Hp).
  unfold fromfile. cbn [pos content name].
  assert (Hchunk : take bs (drop p l') = take bs (drop p l))
    by (rewrite !take_drop_commute, Hagree; reflexivity).
  assert (Hsize : length (take bs (drop p l)) = bs)
    by (rewrite length_take, length_drop; lia).
  rewrite Hchunk, Hsize.
  rewrite (proj2 (Nat.eqb_neq bs 0)) by lia.
  rewrite bool_decide_eq_true_2 by reflexivity.
  reflexivity.
Qed.

(** [d] rounds over chunks on which the two files agree. *)
Lemma compare_loop_equal_chunks (d : nat) :
  forall fuel rn cn l l' p total iters bs it,
    0 < bs -> p + d * bs <= length l ->
    (0 < d -> p + (d - 1) * bs < total) ->
    take (p + d * bs) l = take (p + d * bs) l' ->
    compare_loop (d + fuel)
      {| name := rn; content := l; pos := p |}
      {| name := cn; content := l'; pos := p |} total iters bs p it
    = compare_loop fuel
        {| name := rn; content := l; pos := p + d * bs |}
        {| name := cn; content := l'; pos := p + d * bs |}
        total iters bs (p + d * bs) it.
Proof.
  induction d as [| d IH]; intros fuel rn cn l l' p total iters bs it
    Hbs Hlen Htotal Hagree.
  - rewrite Nat.mul_0_l, Nat.add_0_r. reflexivity.
  - change (S d + fuel) with (S (d + fuel)).
    rewrite compare_loop_equal_chunk; [| lia | nia | nia |].
    + rewrite IH; [| lia | nia | nia |].
      * replace (p + bs + d * bs) with (p + S d * bs) by lia. reflexivity.
      * replace (p + bs + d * bs) with (p + S d * bs) by lia. exact Hagree.
    + apply (f_equal (take (p + bs))) in Hagree.
      rewrite !take_take in Hagree.
      replace (min (p + bs) (p + S d * bs)) with (p + bs) in Hagree by nia.
      exact Hagree.
Qed.

(** The round that meets two different, non-empty chunks. *)
Lemma compare_loop_mismatch fuel rn cn l l' p total iters bs it :
  p < total ->
  take bs (drop p l) <> [] -> take bs (drop p l') <> [] ->
  take bs (drop p l) <> take bs (drop p l') ->
  compare_loop (S fuel)
    {| name := rn; content := l; pos := p |}
    {| name := cn; content := l'; pos := p |} total iters bs p it
  = Raised (AssertionError
      (ArrayMismatch p (take bs (drop p l)) (take bs (drop p l')))).
Proof.
  intros Hp Href Hrec Hne.
  cbn [compare_loop]. rewrite (proj2 (Nat.ltb_lt _ _) Hp).
  unfold fromfile. cbn [pos content name].
  destruct (take bs (drop p l)) as [| x c] eqn:Hc; [congruence |].
  destruct (take bs (drop p l')) as [| x' c'] eqn:Hc'; [congruence |].
  cbn [length Nat.eqb].
  rewrite bool_decide_eq_false_2 by exact Hne. reflexivity.
Qed.

(** The round in which the received file has nothing left. *)
Lemma compare_loop_received_eof fuel rn cn l l' p total iters bs it :
  p < total ->
  take bs (drop p l) <> [] -> take bs (drop p l') = [] ->
  compare_loop (S fuel)
    {| name := rn; content := l; pos := p |}
    {| name := cn; content := l'; pos := p |} total iters bs p it
  = Raised (EOFError (ReceivedEOF cn p)).
Proof.
  intros Hp Href Hrec.
  cbn [compare_loop]. rewrite (proj2 (Nat.ltb_lt _ _) Hp).
  unfold fromfile. cbn [pos content name]. rewrite Hrec.
  destruct (take bs (drop p l)) as [| x c] eqn:Hc; [congruence |].
  reflexivity.
Qed.

(** More fuel does not change a result. *)
Lemma compare_loop_fuel_mono (fuel : nat) :
  forall k reference_file received_file total iters bs processed iteration r,
    compare_loop fuel reference_file received_file total iters bs
      processed iteration = r ->
    r <> OutOfFuel ->
    compare_loop (fuel + k) reference_file received_file total iters bs
      processed iteration = r.
Proof.
  induction fuel as [| fuel IH]; intros k rf cf total iters bs processed it r Hrun Hr;
    [cbn in Hrun; congruence |].
  cbn [compare_loop Nat.add] in *.
  destruct (processed <? total); [| exact Hrun].
  destruct (fromfile rf bs) as [reference rf'].
  destruct (length reference =? 0).
  - destruct (it <? iters); [| exact Hrun]. apply IH; assumption.
  - destruct (fromfile cf bs) as [received cf'].
    destruct (length received =? 0); [exact Hrun |].
    case_bool_decide; [| exact Hrun]. apply IH; assumption.
Qed.

(** What some fuel returns is what [compare] returns. *)
Lemma compare_from_loop fuel reference_file received_file total iters bs r :
  compare_loop fuel reference_file received_file total iters bs 0 0 = r ->
  r <> OutOfFuel ->
  compare reference_file received_file total iters bs = r.
Proof.
  intros Hrun Hr.
  pose proof (compare_terminates reference_file received_file total iters bs)
    as Hterm.
  unfold compare in *.
  apply (compare_loop_fuel_mono _ (total + iters + 1)) in Hrun; [| exact Hr].
  rewrite <- Hrun. symmetry.
  rewrite (Nat.add_comm fuel (total + iters + 1)).
  apply (compare_loop_fuel_mono (total + iters + 1) fuel);
    [reflexivity | exact Hterm].
Qed.

(** One round over equal chunks, the two cursors being anywhere. *)
Lemma compare_loop_equal_chunk_at fuel rn cn l l' p p' done total iters bs it :
  0 < bs -> done < total -> p + bs <= length l ->
  take bs (drop p l) = take bs (drop p' l') ->
  compare_loop (S fuel)
    {| name := rn; content := l; pos := p |}
    {| name := cn; content := l'; pos := p' |} total iters bs done it
  = compare_loop fuel
      {| name := rn; content := l; pos := p + bs |}
      {| name := cn; content := l'; pos := p' + bs |} total iters bs
      (done + bs) it.
Proof.
  intros Hbs Hdone Hlen Hagree.
  cbn [compare_loop]. rewrite (proj2 (Nat.ltb_lt _ _) Hdone).
  unfold fromfile. cbn [pos content name].
  assert (Hsize : length (take bs (drop p l)) = bs)
    by (rewrite length_take, length_drop; lia).
  rewrite <- Hagree, Hsize.
  rewrite (proj2 (Nat.eqb_neq bs 0)) by lia.
  rewrite bool_decide_eq_true_2 by reflexivity.
  reflexivity.
Qed.

(** [d] rounds over equal chunks, the two cursors being anywhere. *)
Lemma compare_loop_equal_chunks_at (d : nat) :
  forall fuel rn cn l l' p p' done total iters bs it,
    0 < bs -> p + d * bs <= length l ->
    (0 < d -> done + (d - 1) * bs < total) ->
    take (d * bs) (drop p l) = take (d * bs) (drop p' l') ->
    compare_loop (d + fuel)
      {| name := rn; content := l; pos := p |}
      {| name := cn; content := l'; pos := p' |} total iters bs done it
    = compare_loop fuel
        {| name := rn; content := l; pos := p + d * bs |}
        {| name := cn; content := l'; pos := p' + d * bs |}
        total iters bs (done + d * bs) it.
Proof.
  induction d as [| d IH]; intros fuel rn cn l l' p p' done total iters bs it
    Hbs Hlen Htotal Hagree.
  - rewrite Nat.mul_0_l, !Nat.add_0_r. reflexivity.
  - change (S d + fuel) with (S (d + fuel)).
    rewrite compare_loop_equal_chunk_at; [| lia | nia | nia |].
    + rewrite IH; [| lia | nia | nia |].
      * replace (p + bs + d * bs) with (p + S d * bs) by lia.
        replace (p' + bs + d * bs) with (p' + S d * bs) by lia.
        replace (done + bs + d * bs) with (done + S d * bs) by lia.
        reflexivity.
      * apply (f_equal (drop bs)) in Hagree.
        change (S d * bs) with (bs + d * bs) in Hagree.
        rewrite <- !take_drop_commute, !drop_drop in Hagree.
        exact Hagree.
    + apply (f_equal (take bs)) in Hagree.
      rewrite !take_take in Hagree.
      replace (min bs (S d * bs)) with bs in Hagree by nia.
      exact Hagree.
Qed.

(** Repeated playback: with the reference at its start, the received file
    holding [r] further copies of it, and no more than [iters] passes begun
    once these are done, the comparison succeeds. *)
Lemma compare_loop_passes (r : nat) :
  forall rn cn l l' p' done iters bs m it,
    0 < bs -> 0 < m -> length l = m * bs ->
    drop p' l' = concat (replicate r l) ->
    it + r <= iters ->
    exists fuel,
      compare_loop fuel
        {| name := rn; content := l; pos := 0 |}
        {| name := cn; content := l'; pos := p' |}
        (done + r * length l) iters bs done it
      = Returned tt.
Proof.
  induction r as [| r IH]; intros rn cn l l' p' done iters bs m it
    Hbs Hm Hlen Hrest Hit.
  - exists 1. cbn [compare_loop]. rewrite (proj2 (Nat.ltb_ge _ _)) by lia.
    reflexivity.
  - cbn [replicate concat] in Hrest.
    assert (Hchunks : forall fuel,
      compare_loop (m + fuel)
        {| name := rn; content := l; pos := 0 |}
        {| name := cn; content := l'; pos := p' |}
        (done + S r * length l) iters bs done it
      = compare_loop fuel
          {| name := rn; content := l; pos := length l |}
          {| name := cn; content := l'; pos := p' + length l |}
          (done + S r * length l) iters bs (done + length l) it).
    { intros fuel.
      rewrite compare_loop_equal_chunks_at; [| lia | lia | nia |].
      - rewrite Nat.add_0_l, <- Hlen. reflexivity.
      - rewrite Hrest, <- Hlen, drop_0, take_ge, take_app_length by lia.
        reflexivity. }
    destruct r as [| r].
    + exists (m + 1). rewrite Hchunks. cbn [compare_loop].
      rewrite (proj2 (Nat.ltb_ge _ _)) by lia. reflexivity.
    + destruct (IH rn cn l l' (p' + length l) (done + length l) iters bs m (it + 1))
        as [fuel Hrun]; [lia | lia | exact Hlen | | lia |].
      { rewrite <- drop_drop, Hrest, drop_app_length. reflexivity. }
      exists (m + S fuel). rewrite Hchunks. cbn [compare_loop].
      rewrite (proj2 (Nat.ltb_lt _ _)) by nia.
      unfold fromfile at 1. cbn [pos content name].
      rewrite drop_all, take_nil. cbn [length Nat.eqb].
      rewrite (proj2 (Nat.ltb_lt it iters)) by lia.
      unfold seek. cbn [pos content name].
      rewrite <- Hrun. f_equal. lia.
Qed.

(** Quotient and remainder by the chunk size, in the form the proofs use. *)
Lemma chunk_split (n bs : nat) :
  0 < bs -> exists k r, n / bs = k /\ n mod bs = r /\ n = bs * k + r /\ r < bs.
Proof.
  intros Hbs. exists (n / bs), (n mod bs).
  pose proof (Nat.div_mod_eq n bs). pose proof (Nat.mod_upper_bound n bs).
  repeat split; lia.
Qed.

(** C3 (as the code has it).  When the reference file reads empty before
    [num_samples_total] samples are processed, [compare] rewinds it and goes
    on as long as fewer than [num_iterations] passes have been started, and
    once it has rewound [num_iterations] times it raises the [EOFError] that
    names the reference file, the iteration and the samples processed.  So
    a received file made of [c] copies of a reference of whole chunks,
    [c] at most [num_iterations], verifies.  A received file that is the reference cut after [R] samples, with [R]
    below [num_samples_total], ends the comparison at the chunk that holds
    offset [R]: if the cut is at a chunk boundary, with the [EOFError] that
    names the received file and the [R] samples processed; if it is inside
    a chunk, with the array mismatch reported at the start of that chunk. *)
Theorem compare_premature_eof :
  (forall fuel reference_file received_file total iters bs processed iteration,
      processed < total ->
      (fromfile reference_file bs).1 = [] ->
      (iteration + 1 < iters ->
       compare_loop (S fuel) reference_file received_file total iters bs
         processed iteration
       = compare_loop fuel (seek reference_file 0) received_file total iters bs
           processed (iteration + 1)) /\
      (iters <= iteration ->
       compare_loop (S fuel) reference_file received_file total iters bs
         processed iteration
       = Raised (EOFError
           (ReferenceEOF (name reference_file) iteration processed)))) /\
  (forall rn cn l c m iters bs,
      0 < bs -> 0 < m -> length l = m * bs -> c <= iters ->
      compare {| name := rn; content := l; pos := 0 |}
              {| name := cn; content := concat (replicate c l); pos := 0 |}
              (c * length l) iters bs
      = Returned tt) /\
  (forall rn cn l total iters bs R,
      0 < bs -> R < total -> R < length l ->
      compare {| name := rn; content := l; pos := 0 |}
              {| name := cn; content := take R l; pos := 0 |} total iters bs
      = if R mod bs =? 0 then Raised (EOFError (ReceivedEOF cn R))
        else Raised (AssertionError
               (ArrayMismatch (bs * (R / bs))
                  (take bs (drop (bs * (R / bs)) l))
                  (take bs (drop (bs * (R / bs)) (take R l)))))).
Proof.
  split; [| split].
  - intros fuel rf cf total iters bs processed it Hp Hempty.
    cbn [compare_loop]. rewrite (proj2 (Nat.ltb_lt _ _) Hp).
    unfold fromfile in *. cbn [fst] in Hempty. rewrite Hempty.
    cbn [length Nat.eqb]. split; intros Hit.
    + rewrite (proj2 (Nat.ltb_lt it iters)) by lia.
      unfold seek. cbn [name content pos]. reflexivity.
    + rewrite (proj2 (Nat.ltb_ge it iters)) by lia. reflexivity.
  - intros rn cn l c m iters bs Hbs Hm Hlen Hc.
    destruct (compare_loop_passes c rn cn l (concat (replicate c l)) 0 0
                iters bs m 0 Hbs Hm Hlen eq_refl ltac:(lia)) as [fuel Hrun].
    apply (compare_from_loop fuel); [exact Hrun | discriminate].
  - intros rn cn l total iters bs R Hbs Htotal Hlen.
    destruct (chunk_split R bs Hbs) as (k & r & -> & -> & HR & Hr).
    unfold compare.
    replace (total + iters + 1) with (k + S (total + iters - k)) by nia.
    rewrite compare_loop_equal_chunks; [| lia | nia | nia |].
    2:{ rewrite take_take. f_equal. nia. }
    replace (0 + k * bs) with (bs * k) by lia.
    destruct (r =? 0) eqn:Hr0.
    + apply Nat.eqb_eq in Hr0. subst r. rewrite Nat.add_0_r in HR. subst R.
      apply compare_loop_received_eof; [exact Htotal | |].
      * intros Hnil. apply (f_equal length) in Hnil.
        rewrite length_take, length_drop in Hnil. cbn in Hnil. lia.
      * rewrite (drop_ge (take (bs * k) l)); [apply take_nil |].
        rewrite length_take. lia.
    + apply Nat.eqb_neq in Hr0.
      assert (Href : length (take bs (drop (bs * k) l)) = min bs (length l - bs * k))
        by (rewrite length_take, length_drop; reflexivity).
      assert (Hrec : length (take bs (drop (bs * k) (take R l))) = r)
        by (rewrite length_take, length_drop, length_take; lia).
      apply compare_loop_mismatch; [lia | | |].
      * intros Hnil. rewrite Hnil in Href. cbn in Href. lia.
      * intros Hnil. rewrite Hnil in Hrec. cbn in Hrec. lia.
      * intros Heq. rewrite Heq, Hrec in Href. lia.
Qed.

Lemma compare_premature_eof_witness :
  compare {| name := "in.dat"; content := [(1, 0); (2, 0); (3, 0); (4, 0)]%Z;
             pos := 0 |}
          {| name := "out.dat"; content := [(1, 0); (2, 0)]%Z; pos := 0 |}
          4 1 2
  = Raised (EOFError (ReceivedEOF "out.dat" 2)).
Proof.
  exact (proj2 (proj2 compare_premature_eof) "in.dat" "out.dat"
           [(1, 0); (2, 0); (3, 0); (4, 0)]%Z 4 1 2 2
           ltac:(lia) ltac:(lia) ltac:(cbn; lia)).
Defined.

(** With [num_iterations = 1], a reference of one chunk is passed over
    twice: the test [iteration < num_iterations] counts the rewinds, not
    the passes. *)
Example compare_rewinds_once_for_one_iteration :
  compare {| name := "in.dat"; content := [(1, 0); (2, 0)]%Z; pos := 0 |}
          {| name := "out.dat";
             content := [(1, 0); (2, 0); (1, 0); (2, 0)]%Z; pos := 0 |}
          4 1 2
  = Returned tt.
Proof. vm_compute. reflexivity. Qed.

(** C3, refuted as stated: with [num_iterations = 1] and chunks of two
    samples, a received file cut after three of the four samples does not
    end in the [EOFError] of the received file; the comparison fails with
    the array mismatch of the second chunk, reported at offset 2. *)
Lemma compare_truncated_inside_chunk :
  compare {| name := "in.dat"; content := [(1, 0); (2, 0); (3, 0); (4, 0)]%Z;
             pos := 0 |}
          {| name := "out.dat"; content := [(1, 0); (2, 0); (3, 0)]%Z; pos := 0 |}
          4 1 2
  = Raised (AssertionError
      (ArrayMismatch 2 [(3, 0); (4, 0)]%Z [(3, 0)]%Z)) /\
  compare {| name := "in.dat"; content := [(1, 0); (2, 0); (3, 0); (4, 0)]%Z;
             pos := 0 |}
          {| name := "out.dat"; content := [(1, 0); (2, 0); (3, 0)]%Z; pos := 0 |}
          4 1 2
  <> Raised (EOFError (ReceivedEOF "out.dat" 3)).
Proof. split; [vm_compute; reflexivity | vm_compute; discriminate]. Qed.

(** C4 (as the code has it).  When the received file is the reference with
    the sample at offset [p] replaced by a different one, and the chunk
    holding [p] starts before [num_samples_total], [compare] fails with the
    array mismatch that reports the offset at which that chunk starts,
    [buffer_size * (p / buffer_size)], and the two chunks compared. *)
Theorem compare_flipped_sample rn cn l p x y total iters bs :
  0 < bs -> l !! p = Some y -> x <> y -> bs * (p / bs) < total ->
  compare {| name := rn; content := l; pos := 0 |}
          {| name := cn; content := <[p := x]> l; pos := 0 |} total iters bs
  = Raised (AssertionError
      (ArrayMismatch (bs * (p / bs))
         (take bs (drop (bs * (p / bs)) l))
         (take bs (drop (bs * (p / bs)) (<[p := x]> l))))).
Proof.
  intros Hbs Hy Hxy Htotal.
  pose proof (lookup_lt_Some _ _ _ Hy) as Hp.
  destruct (chunk_split p bs Hbs) as (k & r & Hk & _ & Hsplit & Hr).
  rewrite Hk in *. unfold compare.
  replace (total + iters + 1) with (k + S (total + iters - k)) by nia.
  rewrite compare_loop_equal_chunks; [| lia | nia | nia |].
  2:{ rewrite take_insert_ge by lia. reflexivity. }
  replace (0 + k * bs) with (bs * k) by lia.
  assert (Href : take bs (drop (bs * k) l) !! r = Some y).
  { rewrite lookup_take, lookup_drop. rewrite decide_True by exact Hr.
    rewrite <- Hsplit. exact Hy. }
  assert (Hrec : take bs (drop (bs * k) (<[p := x]> l)) !! r = Some x).
  { rewrite lookup_take, lookup_drop. rewrite decide_True by exact Hr.
    rewrite <- Hsplit. apply list_lookup_insert_eq. exact Hp. }
  apply compare_loop_mismatch; [exact Htotal | | |].
  - intros Hnil. rewrite Hnil in Href. discriminate Href.
  - intros Hnil. rewrite Hnil in Hrec. discriminate Hrec.
  - intros Heq. rewrite Heq, Hrec in Href. congruence.
Qed.

Lemma compare_flipped_sample_witness :
  compare {| name := "in.dat"; content := [(1, 0); (2, 0); (3, 0); (4, 0)]%Z;
             pos := 0 |}
          {| name := "out.dat"; content := [(1, 0); (2, 0); (3, 0); (9, 0)]%Z;
             pos := 0 |}
          4 1 2
  = Raised (AssertionError
      (ArrayMismatch 2 [(3, 0); (4, 0)]%Z [(3, 0); (9, 0)]%Z)).
Proof.
  exact (compare_flipped_sample "in.dat" "out.dat"
           [(1, 0); (2, 0); (3, 0); (4, 0)]%Z 3 (9, 0)%Z (4, 0)%Z 4 1 2
           ltac:(lia) eq_refl ltac:(discriminate) ltac:(cbn; lia)).
Defined.

(** C4, refuted as stated: with chunks of two samples, flipping the sample
    at offset 3 is reported at offset 2, where its chunk starts, not at
    offset 3. *)
Lemma compare_flip_reports_chunk_start :
  let reference := {| name := "in.dat";
                      content := [(1, 0); (2, 0); (3, 0); (4, 0)]%Z; pos := 0 |} in
  let received := {| name := "out.dat";
                     content := <[3 := (9, 0)%Z]> (content reference); pos := 0 |} in
  reported_offset (compare reference received 4 1 2) = Some 2 /\
  reported_offset (compare reference received 4 1 2) <> Some 3.
Proof. split; [vm_compute; reflexivity | vm_compute; discriminate]. Qed.

End Compare.

(** * Properties of the transmit pump ([tx_function]) *)

Section MonadFacts.

Context {W E : Type}.

Lemma bind_returned {A B} (m : M W E A) (k : A -> M W E B) w a w' :
  m w = (Returned a, w') -> (m ≫= k) w = k a w'.
Proof. intros Hm. unfold mbind, M_bind. rewrite Hm. reflexivity. Qed.

Lemma bind_raised {A B} (m : M W E A) (k : A -> M W E B) w e w' :
  m w = (Raised e, w') -> (m ≫= k) w = (Raised e, w').
Proof. intros Hm. unfold mbind, M_bind. rewrite Hm. reflexivity. Qed.

End MonadFacts.

Section TransmitFacts.

Import Host.
Local Open Scope nat_scope.

Context {tx_state : Type}.
Variable send : tx_state -> list (list sample) -> nat * tx_state.

Implicit Types (w : tx_world tx_state) (f : file).

Lemma tx_seek0_run idx f w :
  tx_files w !! idx = Some f ->
  tx_seek0 idx w = (Returned tt, set_tx_file idx (seek f 0) w).
Proof.
  intros Hf. unfold tx_seek0.
  erewrite bind_returned by (unfold tx_file; rewrite Hf; reflexivity).
  reflexivity.
Qed.

Lemma tx_fromfile_run idx buffer_size f w :
  tx_files w !! idx = Some f ->
  tx_fromfile idx buffer_size w
  = (Returned (fromfile f buffer_size).1,
     set_tx_file idx (fromfile f buffer_size).2 w).
Proof.
  intros Hf. unfold tx_fromfile.
  erewrite bind_returned by (unfold tx_file; rewrite Hf; reflexivity).
  reflexivity.
Qed.

Lemma tx_store_run idx buffer row w :
  rows (tx_buffer w) !! idx = Some row ->
  tx_store idx buffer w
  = (Returned tt, set_tx_row idx (buffer ++ drop (length buffer) row) w).
Proof. intros Hrow. unfold tx_store. rewrite Hrow. reflexivity. Qed.

(** A file read leaves as many samples as were left, up to the count. *)
Lemma length_fromfile f count :
  length (fromfile f count).1 = min count (length (content f) - pos f).
Proof. unfold fromfile. cbn [fst]. rewrite length_take, length_drop. reflexivity. Qed.

(** Once a later channel delivers another count than channel 0 did, the
    loop over the channels stops at its [assert]; no [send] is issued. *)
Lemma read_channels_mismatch (k : nat) :
  forall i w buffer_size len0,
    0 < i ->
    (forall j, i <= j < i + k ->
       is_Some (tx_files w !! j) /\ is_Some (rows (tx_buffer w) !! j)) ->
    (exists j f, i <= j < i + k /\ tx_files w !! j = Some f /\
                 length (fromfile f buffer_size).1 <> len0) ->
    exists w',
      read_channels (seq i k) buffer_size (Some len0) w
      = (Raised (AssertionError NoMessage), w') /\
      tx_sends w' = tx_sends w /\ tx_streamer w' = tx_streamer w.
Proof.
  induction k as [| k IH]; intros i w bs len0 Hi Hsome (j & fj & Hj & Hfj & Hne);
    [lia |].
  destruct (Hsome i ltac:(lia)) as [[f Hf] [row Hrow]].
  cbn [seq read_channels].
  erewrite bind_returned by (apply tx_fromfile_run; exact Hf).
  rewrite (proj2 (Nat.eqb_neq i 0)) by lia.
  destruct (length (fromfile f bs).1 =? len0) eqn:Hlen.
  - apply Nat.eqb_eq in Hlen.
    erewrite bind_returned by reflexivity.
    erewrite bind_returned by (apply tx_store_run; exact Hrow).
    assert (Hji : i <> j) by (intros ->; congruence).
    destruct (IH (S i)
                (set_tx_row i ((fromfile f bs).1
                                 ++ drop (length (fromfile f bs).1) row)
                   (set_tx_file i (fromfile f bs).2 w)) bs len0)
      as (w' & Hrun & Hsends & Hstreamer).
    + lia.
    + intros j' Hj'. cbn [set_tx_row set_tx_file tx_files tx_buffer rows].
      rewrite !list_lookup_insert_ne by lia. apply Hsome. lia.
    + exists j, fj. cbn [set_tx_row set_tx_file tx_files].
      rewrite list_lookup_insert_ne by exact Hji.
      repeat split; [lia | lia | exact Hfj | exact Hne].
    + exists w'. split; [exact Hrun |]. rewrite Hsends, Hstreamer.
      split; reflexivity.
  - erewrite bind_raised by reflexivity.
    eexists. split; [reflexivity |]. split; reflexivity.
Qed.

(** C6: when, in one chunk, a channel's read delivers another count than
    channel 0's read, the pump stops with the [AssertionError] of its
    length check (the channel length mismatch), and no [send] has been
    issued for that chunk: the streamer and the list of sends are as they
    were when the chunk began. *)
Theorem tx_channel_length_mismatch
    w budget fuel num_chans buffer_size num_tx f0 j fj :
  num_chans <= length (tx_files w) ->
  num_chans <= length (rows (tx_buffer w)) ->
  j < num_chans ->
  tx_files w !! 0 = Some f0 ->
  tx_files w !! j = Some fj ->
  length (fromfile fj buffer_size).1 <> length (fromfile f0 buffer_size).1 ->
  exists w',
    chunk_loop send budget (S fuel) num_chans buffer_size num_tx w
    = (Raised (AssertionError NoMessage), w') /\
    tx_sends w' = tx_sends w /\ tx_streamer w' = tx_streamer w.
Proof.
  intros Hfiles Hrows Hj Hf0 Hfj Hne.
  assert (Hj0 : j <> 0) by (intros ->; congruence).
  destruct num_chans as [| n]; [lia |].
  destruct (lookup_lt_is_Some_2 (rows (tx_buffer w)) 0 ltac:(lia)) as [row0 Hrow0].
  set (w1 := set_tx_row 0 ((fromfile f0 buffer_size).1
                             ++ drop (length (fromfile f0 buffer_size).1) row0)
               (set_tx_file 0 (fromfile f0 buffer_size).2 w)).
  destruct (read_channels_mismatch n 1 w1 buffer_size
              (length (fromfile f0 buffer_size).1))
    as (w' & Hrun & Hsends & Hstreamer).
  - lia.
  - intros j' Hj'. subst w1. cbn [set_tx_row set_tx_file tx_files tx_buffer rows].
    rewrite !list_lookup_insert_ne by lia.
    split; apply lookup_lt_is_Some_2; lia.
  - exists j, fj. subst w1. cbn [set_tx_row set_tx_file tx_files].
    rewrite list_lookup_insert_ne by lia.
    repeat split; [lia | lia | exact Hfj | exact Hne].
  - exists w'. split; [| split; [rewrite Hsends | rewrite Hstreamer]; reflexivity].
    cbn [chunk_loop seq read_channels].
    erewrite bind_raised; [reflexivity |].
    erewrite bind_returned by (apply tx_fromfile_run; exact Hf0).
    cbn [Nat.eqb].
    erewrite bind_returned by reflexivity.
    erewrite bind_returned by (apply tx_store_run; exact Hrow0).
    exact Hrun.
Qed.

(** Moving the file of channel [i] to the cursor [done] extends the part
    of the files that is done by one channel. *)
Lemma files_upto_insert size i done todo (fs : list file) f :
  i < length fs ->
  files_upto size i done todo fs ->
  length (content f) = size -> pos f = done ->
  files_upto size (S i) done todo (<[i := f]> fs).
Proof.
  intros Hi Hfs Hsize Hpos idx g Hg.
  destruct (decide (idx = i)) as [-> | Hne].
  - rewrite list_lookup_insert_eq in Hg by lia. injection Hg as <-.
    split; [exact Hsize |]. split; [intros _; exact Hpos | lia].
  - rewrite list_lookup_insert_ne in Hg by congruence.
    destruct (Hfs idx g Hg) as (Hs & Hd & Ht).
    split; [exact Hs |]. split; [intros; apply Hd | intros; apply Ht]; lia.
Qed.

Lemma files_upto_all size done todo (fs : list file) :
  files_upto size (length fs) done todo fs ->
  files_upto size (length fs) done (fun _ => True) fs.
Proof.
  intros Hfs idx g Hg. destruct (Hfs idx g Hg) as (Hs & Hd & _).
  repeat split; assumption.
Qed.

Lemma files_upto_none size done p (fs : list file) :
  files_upto size (length fs) p (fun _ => True) fs ->
  files_upto size 0 done (fun f => pos f = p) fs.
Proof.
  intros Hfs idx g Hg. destruct (Hfs idx g Hg) as (Hs & Hd & _).
  pose proof (lookup_lt_Some _ _ _ Hg).
  split; [exact Hs |]. split; [lia | intros _; apply Hd; lia].
Qed.

Section Drain.

(** The shape of the buffer, the size of every file, and the streamer's
    promise. *)
Variables num_chans buffer_size size : nat.
Hypothesis Hchans : 0 < num_chans.
Hypothesis Hsend : send_takes_some send.

(** The loop that rewinds the files. *)
Lemma seek_loop_run (k : nat) :
  forall i w,
    i + k = num_chans ->
    tx_inv num_chans buffer_size size i 0 (fun _ => True) w ->
    exists w',
      for_each (seq i k) tx_seek0 w = (Returned tt, w') /\
      tx_at num_chans buffer_size size 0 w' /\
      tx_sends w' = tx_sends w /\ tx_streamer w' = tx_streamer w.
Proof.
  induction k as [| k IH]; intros i w Hik (Hshape & Hwf & Hlen & Hfiles).
  - exists w. replace i with num_chans in * by lia.
    split; [reflexivity |].
    split; [exact (conj Hshape (conj Hwf (conj Hlen Hfiles))) |].
    split; reflexivity.
  - destruct (lookup_lt_is_Some_2 (tx_files w) i ltac:(lia)) as [f Hf].
    destruct (IH (S i) (set_tx_file i (seek f 0) w)) as (w' & Hrun & Hat & Hframe);
      [lia | |].
    + split; [exact Hshape |]. split; [exact Hwf |].
      cbn [set_tx_file tx_files]. rewrite length_insert.
      split; [exact Hlen |].
      apply files_upto_insert; [lia | exact Hfiles | | reflexivity].
      exact (proj1 (Hfiles i f Hf)).
    + exists w'. split; [| exact (conj Hat Hframe)].
      cbn [seq for_each].
      erewrite bind_returned by (apply tx_seek0_run; exact Hf).
      exact Hrun.
Qed.

(** The loop over the channels when every file is at the same cursor [p]:
    all channels deliver [min buffer_size (size - p)] samples. *)
Lemma read_channels_equal (p : nat) (k : nat) :
  let len := min buffer_size (size - p) in
  forall i w bound,
    i + k = num_chans ->
    tx_inv num_chans buffer_size size i (p + len) (fun f => pos f = p) w ->
    i = 0 \/ bound = Some len ->
    exists w',
      read_channels (seq i k) buffer_size bound w
      = (Returned (match k with O => bound | S _ => Some len end), w') /\
      tx_at num_chans buffer_size size (p + len) w' /\
      tx_sends w' = tx_sends w /\ tx_streamer w' = tx_streamer w.
Proof.
  intros len. induction k as [| k IH];
    intros i w bound Hik (Hshape & Hwf & Hlen & Hfiles) Hbound.
  - exists w. replace i with num_chans in * by lia.
    split; [reflexivity |]. split; [| split; reflexivity].
    split; [exact Hshape |]. split; [exact Hwf |]. split; [exact Hlen |].
    rewrite <- Hlen in *. apply (files_upto_all _ _ _ _ Hfiles).
  - destruct Hwf as [Hrows Hrow].
    destruct (lookup_lt_is_Some_2 (tx_files w) i ltac:(lia)) as [f Hf].
    destruct (lookup_lt_is_Some_2 (rows (tx_buffer w)) i) as [row Hr];
      [rewrite Hrows, Hshape; cbn; lia |].
    destruct (Hfiles i f Hf) as (Hsize & _ & Hpos). specialize (Hpos ltac:(lia)).
    assert (Hread : length (fromfile f buffer_size).1 = len)
      by (rewrite length_fromfile, Hsize, Hpos; reflexivity).
    set (w1 := set_tx_row i ((fromfile f buffer_size).1
                               ++ drop (length (fromfile f buffer_size).1) row)
                 (set_tx_file i (fromfile f buffer_size).2 w)).
    destruct (IH (S i) w1 (Some len)) as (w' & Hrun & Hat & Hsends & Hstreamer);
      [lia | | right; reflexivity |].
    + subst w1. unfold tx_inv, ndarray_wf.
      cbn [set_tx_row set_tx_file tx_buffer tx_files rows shape].
      split; [exact Hshape |]. split; [split |].
      * rewrite length_insert. exact Hrows.
      * apply Forall_insert; [exact Hrow |].
        rewrite length_app, length_drop, Hread.
        rewrite (Forall_lookup_1 _ _ _ _ Hrow Hr), Hshape. cbn. lia.
      * rewrite length_insert. split; [exact Hlen |].
        apply files_upto_insert; [lia | exact Hfiles | exact Hsize |].
        unfold fromfile. cbn [snd pos].
        change (take buffer_size (drop (pos f) (content f)))
          with (fromfile f buffer_size).1.
        rewrite Hread, Hpos. reflexivity.
    + exists w'. split; [| split; [exact Hat |]].
      * cbn [seq read_channels].
        erewrite bind_returned by (apply tx_fromfile_run; exact Hf).
        erewrite (bind_returned _ _ _ len).
        2:{ destruct (i =? 0) eqn:Hi0.
            - rewrite Hread. reflexivity.
            - apply Nat.eqb_neq in Hi0.
              destruct Hbound as [-> | ->]; [lia |].
              rewrite Hread, Nat.eqb_refl. reflexivity. }
        erewrite bind_returned by (apply tx_store_run; exact Hr).
        fold w1. rewrite Hrun. destruct k; reflexivity.
      * rewrite Hsends, Hstreamer. split; reflexivity.
Qed.

(** The invariant only looks at the buffer and the files. *)
Lemma tx_inv_frame i done todo w w' :
  tx_files w' = tx_files w -> tx_buffer w' = tx_buffer w ->
  tx_inv num_chans buffer_size size i done todo w ->
  tx_inv num_chans buffer_size size i done todo w'.
Proof. unfold tx_inv. intros -> ->. exact id. Qed.

(** The slice [tx_buffer[:, lo:hi]] offers [hi - lo] samples per channel. *)
Lemma nsamps_columns w lo hi :
  shape (tx_buffer w) = (num_chans, buffer_size) ->
  ndarray_wf (tx_buffer w) ->
  hi <= buffer_size ->
  nsamps (columns (tx_buffer w) lo hi) = hi - lo.
Proof.
  intros Hshape [Hrows Hrow] Hhi. unfold columns.
  rewrite Hshape in Hrows, Hrow. cbn [fst snd] in Hrows, Hrow.
  destruct (rows (tx_buffer w)) as [| row rest]; [cbn in Hrows; lia |].
  apply Forall_cons_1 in Hrow as [Hlen _].
  cbn [fmap list_fmap nsamps]. rewrite length_drop, length_take. lia.
Qed.

(** The send loop gets the whole chunk out, in at least one call per
    [buffer_size] samples. *)
Lemma send_loop_drains (fuel : nat) :
  forall len cur num_tx w,
    shape (tx_buffer w) = (num_chans, buffer_size) ->
    ndarray_wf (tx_buffer w) ->
    len <= buffer_size -> cur <= len -> len - cur < fuel ->
    exists w' new,
      send_loop send fuel len cur num_tx w
      = (Returned (num_tx + (len - cur)), w') /\
      tx_files w' = tx_files w /\ tx_buffer w' = tx_buffer w /\
      tx_sends w' = tx_sends w ++ new /\
      len - cur <= buffer_size * length new.
Proof.
  induction fuel as [| fuel IH]; intros len cur num_tx w Hshape Hwf Hlen Hcur Hfuel;
    [lia |].
  cbn [send_loop].
  destruct (cur <? len) eqn:Hlt.
  - apply Nat.ltb_lt in Hlt.
    pose proof (nsamps_columns w cur len Hshape Hwf Hlen) as Hoffer.
    pose proof (Hsend (tx_streamer w) (columns (tx_buffer w) cur len)
                  ltac:(lia)) as Htaken.
    unfold tx_send at 1.
    destruct (send (tx_streamer w) (columns (tx_buffer w) cur len))
      as [transmitted st] eqn:Hcall.
    cbn [fst] in Htaken.
    set (w1 := {| tx_streamer := st; tx_buffer := tx_buffer w;
                  tx_files := tx_files w;
                  tx_sends := tx_sends w ++ [columns (tx_buffer w) cur len] |}).
    destruct (IH len (cur + transmitted) (num_tx + transmitted) w1)
      as (w' & new & Hrun & Hfiles & Hbuffer & Hsends & Hcount);
      [exact Hshape | exact Hwf | lia | lia | lia |].
    exists w', (columns (tx_buffer w) cur len :: new).
    split.
    + erewrite bind_returned.
      2:{ unfold tx_send. rewrite Hcall. reflexivity. }
      fold w1. rewrite Hrun. do 2 f_equal. lia.
    + split; [exact Hfiles |]. split; [exact Hbuffer |].
      split; [rewrite Hsends; cbn [tx_sends w1]; rewrite <- app_assoc; reflexivity |].
      cbn [length]. lia.
  - apply Nat.ltb_ge in Hlt.
    exists w, []. rewrite app_nil_r.
    repeat split; try reflexivity; [| lia].
    unfold mret, M_ret. do 2 f_equal. lia.
Qed.

(** One pass over files that all hold [size] samples: from the cursor [p]
    on, everything is transmitted. *)
Lemma chunk_loop_drains (fuel : nat) :
  forall budget p num_tx w,
    0 < buffer_size -> buffer_size < budget ->
    p <= size -> size - p < fuel ->
    tx_at num_chans buffer_size size p w ->
    exists w' new,
      chunk_loop send budget fuel num_chans buffer_size num_tx w
      = (Returned (num_tx + (size - p)), w') /\
      tx_at num_chans buffer_size size size w' /\
      tx_sends w' = tx_sends w ++ new /\
      size - p <= buffer_size * length new.
Proof.
  induction fuel as [| fuel IH];
    intros budget p num_tx w Hbs Hbudget Hp Hfuel Hat; [lia |].
  set (len := min buffer_size (size - p)).
  destruct (read_channels_equal p num_chans 0 w None)
    as (w1 & Hread & Hat1 & Hsends1 & _); [lia | | left; reflexivity |].
  { destruct Hat as (Hshape & Hwf & Hlen & Hfiles).
    repeat (split; [assumption |]).
    rewrite <- Hlen in Hfiles. apply files_upto_none. exact Hfiles. }
  fold len in Hread, Hat1.
  assert (Hbound : match num_chans with O => None | S _ => Some len end
                   = Some len)
    by (generalize Hchans; destruct num_chans; [lia | reflexivity]).
  rewrite Hbound in Hread.
  cbn [chunk_loop].
  erewrite bind_returned by exact Hread.
  cbn beta iota.
  destruct (len =? 0) eqn:Hlen0.
  - apply Nat.eqb_eq in Hlen0.
    exists w1, []. rewrite app_nil_r.
    replace (p + len) with size in Hat1 by lia.
    split; [unfold mret, M_ret; do 2 f_equal; lia |].
    split; [exact Hat1 |]. split; [exact Hsends1 | lia].
  - apply Nat.eqb_neq in Hlen0.
    destruct Hat1 as (Hshape & Hwf & Hrest).
    destruct (send_loop_drains budget len 0 num_tx w1 Hshape Hwf)
      as (w2 & new1 & Hsent & Hfiles2 & Hbuffer2 & Hsends2 & Hcount1);
      [lia | lia | lia |].
    destruct (IH budget (p + len) (num_tx + (len - 0)) w2)
      as (w3 & new2 & Hrun & Hat3 & Hsends3 & Hcount2);
      [lia | lia | lia | lia | |].
    { apply (tx_inv_frame _ _ _ w1); [exact Hfiles2 | exact Hbuffer2 |].
      exact (conj Hshape (conj Hwf Hrest)). }
    exists w3, (new1 ++ new2).
    split; [| split; [exact Hat3 | split]].
    + erewrite bind_returned by exact Hsent.
      rewrite Hrun. do 2 f_equal. lia.
    + rewrite Hsends3, Hsends2, Hsends1, <- app_assoc. reflexivity.
    + rewrite length_app. lia.
Qed.

End Drain.

End TransmitFacts.

Section TransmitExamples.

Import Host.
Local Open Scope nat_scope.

Lemma limited_send_takes_some (limit : nat) :
  0 < limit -> send_takes_some (limited_send limit).
Proof. intros Hlimit st slice Hoffer. unfold limited_send. cbn [fst]. lia. Qed.

(** The same run, evaluated: one sample per call makes five calls; two
    samples per call make three, which is [ceil(5 / 2)]. *)
Example tx_function_5_2_runs :
  (tx_function (limited_send 1) 6 1 tx_world_5_2).1 = Returned 5 /\
  tx_streamer (tx_function (limited_send 1) 6 1 tx_world_5_2).2 = 5 /\
  (tx_function (limited_send 2) 6 1 tx_world_5_2).1 = Returned 5 /\
  tx_streamer (tx_function (limited_send 2) 6 1 tx_world_5_2).2 = 3 /\
  ceil_div 5 2 = 3.
Proof. vm_compute. repeat split; reflexivity. Qed.

Lemma tx_channel_length_mismatch_witness :
  exists w',
    chunk_loop (limited_send 2) 4 (S 3) 2 2 2 tx_world_uneven
    = (Raised (AssertionError NoMessage), w') /\
    tx_sends w' = tx_sends tx_world_uneven /\
    tx_streamer w' = tx_streamer tx_world_uneven.
Proof.
  apply (tx_channel_length_mismatch (limited_send 2) tx_world_uneven 4 3 2 2 2
           {| name := "in-chan0.dat"; content := [(1, 0); (2, 0); (3, 0)]%Z;
              pos := 2 |}
           1
           {| name := "in-chan1.dat"; content := [(1, 0); (2, 0)]%Z; pos := 2 |}).
  - simpl. lia.
  - simpl. lia.
  - lia.
  - reflexivity.
  - reflexivity.
  - simpl. lia.
Defined.

(** The whole pump on two files of three and of two samples: the first
    chunk is sent, the second stops at the length check, and the one send
    of the first chunk is all the streamer has seen. *)
Example tx_function_uneven_files :
  let w := {| tx_streamer := 0;
              tx_buffer := zeros 2 2;
              tx_files := (fun f => seek f 0) <$> tx_files tx_world_uneven;
              tx_sends := [] |} in
  (tx_function (limited_send 2) 6 1 w).1 = Raised (AssertionError NoMessage) /\
  tx_sends (tx_function (limited_send 2) 6 1 w).2
  = [ [[(1, 0); (2, 0)]; [(1, 0); (2, 0)]]%Z ] /\
  tx_streamer (tx_function (limited_send 2) 6 1 w).2 = 1.
Proof. vm_compute. repeat split; reflexivity. Qed.

End TransmitExamples.

(** * Properties of the receive pump ([rx_function]) *)

Section ReceiveFacts.

Import Host.
Local Open Scope nat_scope.

Context {rx_state : Type}.
Variable recv : rx_state -> ndarray -> (ndarray * RXMetadata * nat) * rx_state.
Variable error_code_name : RXMetadataErrorCode -> string.

(** Any error code other than [none] ends the pump in the round that
    reports it, with the samples counted so far as the result: a timeout,
    any other error, and an overflow just as well, since the check
    [rx_md.error_code != none] follows the overflow report. *)
Lemma rx_loop_error_returns fuel num_chans num_samples num_rx reported
    (w w2 : rx_world rx_state) buffer rx_md received st :
  num_rx < num_samples ->
  recv (rx_streamer w) (rx_buffer w) = (buffer, rx_md, received, st) ->
  for_each (seq 0 num_chans) (rx_tofile received)
    {| rx_streamer := st; rx_buffer := buffer;
       rx_files := rx_files w; stdout := stdout w |}
  = (Returned tt, w2) ->
  error_code rx_md <> none ->
  (rx_loop recv error_code_name (S fuel) num_chans num_samples num_rx reported w).1
  = Returned (num_rx + received).
Proof.
  intros Hlt Hrecv Hfiles Herror.
  cbn [rx_loop]. rewrite (proj2 (Nat.ltb_lt _ _) Hlt).
  erewrite bind_returned by (unfold rx_recv; rewrite Hrecv; reflexivity).
  cbn beta iota.
  erewrite bind_returned by exact Hfiles.
  case_bool_decide as Htimeout; [reflexivity |].
  destruct (bool_decide (error_code rx_md = overflow)), reported;
    cbn [negb];
    unfold mbind, M_bind, mret, M_ret, print, modify;
    rewrite bool_decide_eq_true_2 by exact Herror; reflexivity.
Qed.

End ReceiveFacts.

Section ReceiveExamples.

Import Host.
Local Open Scope nat_scope.

(** C1, on the simulated transport that reports one overflow with two
    samples and would then deliver two samples twice: asked for six
    samples, [rx_function] logs the overflow once, logs it again as an
    error indication, and returns 2; the two error-free answers of the
    transport are never asked for. *)
Theorem rx_function_overflow_ends_pump :
  (rx_function scripted_recv scripted_name 10 6 rx_world_overflow).1
  = Returned 2 /\
  stdout (rx_function scripted_recv scripted_name 10 6 rx_world_overflow).2
  = ["Got an overflow indication.";
     "Got an error indication: ERROR_CODE_OVERFLOW"]%string /\
  rx_streamer (rx_function scripted_recv scripted_name 10 6 rx_world_overflow).2
  = [(2, md_none); (2, md_none)].
Proof. vm_compute. repeat split; reflexivity. Qed.

End ReceiveExamples.

(** * Properties of reference-mode verification ([_verify_data]) *)

Section VerifyData.

Import Common NullSrcSink.

(** Words that equal the reference are passed over. *)
Lemma verify_loop_prefix (n : nat) :
  forall null_ref rest,
    verify_loop null_ref ((next_n n null_ref).1 ++ rest)
    = verify_loop (next_n n null_ref).2 rest.
Proof.
  induction n as [| n IH]; intros null_ref rest; [reflexivity |].
  cbn [next_n].
  destruct (NullSrcSinkReferenceData_next null_ref) as [w null_ref'] eqn:Hnext.
  specialize (IH null_ref' rest).
  destruct (next_n n null_ref') as [ws null_ref'']. cbn [fst snd] in *.
  cbn [app verify_loop]. rewrite Hnext, Z.eqb_refl. cbn [negb]. exact IH.
Qed.

(** A capture that equals the reference passes. *)
Lemma verify_data_pass (n : nat) :
  _verify_data (next_n n (fresh 2)).1 = Returned (true, ""%string).
Proof.
  unfold _verify_data. cbn [NullSrcSinkReferenceData_init].
  rewrite <- (app_nil_r (next_n n _).1).
  change (NullSrcSinkReferenceData_iter {| mask := 2 - 1 |}) with (fresh 2).
  rewrite verify_loop_prefix. reflexivity.
Qed.

(** The first word that differs ends the verification, whatever follows
    it; the message carries the reference word, the received word, and the
    generator's [line] as it is after the reference word was taken. *)
Lemma verify_data_first_mismatch (n : nat) (dat : Z) (rest : list Z) :
  let null_ref := (next_n n (fresh 2)).2 in
  dat <> (NullSrcSinkReferenceData_next null_ref).1 ->
  _verify_data ((next_n n (fresh 2)).1 ++ dat :: rest)
  = Returned (false,
      mismatch_message (line (NullSrcSinkReferenceData_next null_ref).2)
        (NullSrcSinkReferenceData_next null_ref).1 dat).
Proof.
  intros null_ref Hne.
  unfold _verify_data. cbn [NullSrcSinkReferenceData_init].
  change (NullSrcSinkReferenceData_iter {| mask := 2 - 1 |}) with (fresh 2).
  rewrite verify_loop_prefix. fold null_ref.
  cbn [verify_loop].
  destruct (NullSrcSinkReferenceData_next null_ref) as [reference null_ref'].
  cbn [fst snd] in *.
  rewrite (proj2 (Z.eqb_neq dat reference)) by exact Hne. reflexivity.
Qed.

(** Taking one more word is one more call of [next], at the start or at
    the end. *)
Lemma next_n_step (n : nat) null_ref :
  (next_n (S n) null_ref).2
  = (next_n n (NullSrcSinkReferenceData_next null_ref).2).2.
Proof.
  cbn [next_n]. destruct (NullSrcSinkReferenceData_next null_ref) as [w null_ref'].
  cbn [snd]. destruct (next_n n null_ref'). reflexivity.
Qed.

Lemma next_n_snoc (n : nat) :
  forall null_ref,
    (next_n (S n) null_ref).2
    = (NullSrcSinkReferenceData_next (next_n n null_ref).2).2.
Proof.
  induction n as [| n IH]; intros null_ref.
  - rewrite next_n_step. reflexivity.
  - rewrite (next_n_step (S n) null_ref).
    rewrite (IH (NullSrcSinkReferenceData_next null_ref).2).
    rewrite (next_n_step n null_ref). reflexivity.
Qed.

(** With two words per line, the generator that has produced [m] words is
    on line [(m) / 2]: [line] counts the lines completed so far. *)
Lemma line_after_words (m : nat) :
  let null_ref := (next_n m (fresh 2)).2 in
  it_mask null_ref = 1 /\
  iteration null_ref = Z.of_nat m /\
  line null_ref = Z.of_nat m / 2.
Proof.
  induction m as [| m (Hmask & Hiter & Hline)]; [repeat split |].
  cbn zeta. rewrite next_n_snoc.
  set (null_ref := (next_n m (fresh 2)).2) in *. cbn zeta in Hmask, Hiter, Hline.
  assert (Hchange : line_change null_ref = (Z.of_nat m `mod` 2 =? 1)).
  { unfold line_change. rewrite Hmask, Hiter.
    change 1 with (Z.ones 1) at 1. rewrite Z.land_ones by lia. reflexivity. }
  unfold NullSrcSinkReferenceData_next. rewrite Hchange.
  destruct (Z.of_nat m `mod` 2 =? 1) eqn:Hodd; cbn [snd it_mask iteration line];
    (split; [exact Hmask |]); (split; [lia |]); rewrite Hline.
  - apply Z.eqb_eq in Hodd. rewrite Nat2Z.inj_succ.
    Z.div_mod_to_equations. lia.
  - apply Z.eqb_neq in Hodd. rewrite Nat2Z.inj_succ.
    Z.div_mod_to_equations. lia.
Qed.

(** So a first mismatch at word [n] is reported with line [(n + 1) / 2]:
    the line of word [n], [n / 2], only when [n] is even. *)
Lemma verify_data_reported_line (n : nat) (dat : Z) (rest : list Z) :
  let reference := (NullSrcSinkReferenceData_next (next_n n (fresh 2)).2).1 in
  dat <> reference ->
  _verify_data ((next_n n (fresh 2)).1 ++ dat :: rest)
  = Returned (false,
      mismatch_message (line_of_word (S n)) reference dat).
Proof.
  intros reference Hne. unfold line_of_word.
  rewrite <- (proj2 (proj2 (line_after_words (S n)))).
  cbn zeta. rewrite next_n_snoc.
  apply verify_data_first_mismatch. exact Hne.
Qed.

(** C9, at a capture whose second word is wrong: word 1 belongs to line 0,
    and the message of [_verify_data] says line 01, because it reads
    [null_ref.line] after [next] has moved the generator on to line 1. *)
Theorem verify_data_reports_advanced_line :
  _verify_data [0x0000FFFF; 0x12345678]
  = Returned (false,
      "mismatch in line 01 expected: 0x0000ffff, received: 0x12345678"%string) /\
  line_of_word 1 = 0.
Proof. split; vm_compute; reflexivity. Qed.

End VerifyData.

(** * Further properties of the reference data *)

Section ReferenceDataMore.

Import Common.

(** One line advance of the upper counter, in arithmetic form. *)
Lemma hi_advance (a : Z) :
  0 <= a < 2 ^ 16 ->
  Z.land (uint32 (2 ^ 16 * a + 0x00010000)) 0xFFFF0000
  = 2 ^ 16 * ((a + 1) mod 2 ^ 16).
Proof.
  intros Ha. unfold uint32.
  destruct (Z.eq_dec a 0xFFFF) as [-> | Hne]; [reflexivity |].
  rewrite (Z.mod_small (2 ^ 16 * a + 0x10000)) by lia.
  rewrite land_high16 by lia.
  replace (2 ^ 16 * a + 0x10000) with ((a + 1) * 2 ^ 16) by lia.
  rewrite Z.div_mul by lia. rewrite (Z.mod_small (a + 1)) by lia. reflexivity.
Qed.

(** One line advance of the lower counter, in arithmetic form. *)
Lemma lo_advance (a : Z) :
  0 <= a < 2 ^ 16 ->
  Z.land (uint32 (0xFFFF - a - 0x00000001)) 0x0000FFFF
  = 0xFFFF - (a + 1) mod 2 ^ 16.
Proof.
  intros Ha. unfold uint32.
  destruct (Z.eq_dec a 0xFFFF) as [-> | Hne]; [reflexivity |].
  rewrite (Z.mod_small (0xFFFF - a - 1)) by lia.
  rewrite land_low16, (Z.mod_small (0xFFFF - a - 1)) by lia.
  rewrite (Z.mod_small (a + 1)) by lia. lia.
Qed.

(** The test for a line change, for a mask of [k] low bits. *)
Lemma line_change_pow2 (k : nat) (self : NullSrcSinkReferenceIter) :
  it_mask self = 2 ^ Z.of_nat k - 1 ->
  line_change self
  = (iteration self mod 2 ^ Z.of_nat k =? 2 ^ Z.of_nat k - 1).
Proof.
  intros Hmask. unfold line_change. rewrite Hmask.
  replace (2 ^ Z.of_nat k - 1) with (Z.ones (Z.of_nat k))
    by (rewrite Z.ones_equiv; lia).
  rewrite Z.land_ones by lia. reflexivity.
Qed.

(** The state after [n] words, for [words_per_line = 2^k]. *)
Lemma state_after_words (k n : nat) :
  let self := (next_n n (fresh (2 ^ Z.of_nat k))).2 in
  let q := Z.of_nat n / 2 ^ Z.of_nat k in
  it_mask self = 2 ^ Z.of_nat k - 1 /\
  iteration self = Z.of_nat n /\
  line self = q /\
  hi self = 2 ^ 16 * (q mod 2 ^ 16) /\
  lo self = 0xFFFF - q mod 2 ^ 16.
Proof.
  assert (Hm : 0 < 2 ^ Z.of_nat k) by (apply Z.pow_pos_nonneg; lia).
  induction n as [| n (Hmask & Hiter & Hline & Hhi & Hlo)].
  - cbn zeta. rewrite Z.div_0_l by lia. repeat split.
  - cbn zeta. rewrite next_n_snoc.
    set (self := (next_n n (fresh (2 ^ Z.of_nat k))).2) in *.
    cbn zeta in Hmask, Hiter, Hline, Hhi, Hlo.
    pose proof (line_change_pow2 k self Hmask) as Hchange.
    rewrite Hiter in Hchange.
    unfold NullSrcSinkReferenceData_next. rewrite Hchange.
    set (m := 2 ^ Z.of_nat k) in *.
    assert (Hq : 0 <= Z.of_nat n / m) by (apply Z.div_pos; lia).
    pose proof (Z.mod_pos_bound (Z.of_nat n / m) (2 ^ 16) ltac:(lia)) as Ha.
    rewrite Nat2Z.inj_succ.
    destruct (Z.of_nat n mod m =? m - 1) eqn:Hlast;
      cbn [snd it_mask iteration line hi lo].
    + apply Z.eqb_eq in Hlast.
      assert (Hnext : Z.succ (Z.of_nat n) / m = Z.of_nat n / m + 1).
      { symmetry. apply (Z.div_unique _ m _ 0); [lia |].
        pose proof (Z.div_mod (Z.of_nat n) m ltac:(lia)). lia. }
      rewrite Hnext, Hhi, Hlo, Hline, Hiter.
      rewrite hi_advance, lo_advance by exact Ha.
      rewrite !Z.add_mod_idemp_l by lia.
      repeat split; try reflexivity; lia.
    + apply Z.eqb_neq in Hlast.
      assert (Hnext : Z.succ (Z.of_nat n) / m = Z.of_nat n / m).
      { symmetry. apply (Z.div_unique _ m _ (Z.of_nat n mod m + 1)).
        - pose proof (Z.mod_pos_bound (Z.of_nat n) m ltac:(lia)). lia.
        - pose proof (Z.div_mod (Z.of_nat n) m ltac:(lia)). lia. }
      rewrite Hnext, Hiter.
      repeat split; try assumption; lia.
Qed.

(** The words of [next_n] are the words of the successive states. *)
Lemma next_n_lookup (n d : nat) :
  forall self,
    (next_n (n + S d) self).1 !! n
    = Some (NullSrcSinkReferenceData_next (next_n n self).2).1.
Proof.
  induction n as [| n IH]; intros self.
  - cbn [Nat.add next_n fst snd].
    destruct (NullSrcSinkReferenceData_next self) as [w s].
    destruct (next_n d s). reflexivity.
  - rewrite next_n_step.
    specialize (IH (NullSrcSinkReferenceData_next self).2).
    cbn [Nat.add next_n].
    destruct (NullSrcSinkReferenceData_next self) as [w s]. cbn [snd] in IH.
    destruct (next_n (n + S d) s) as [ws s']. cbn [fst] in *. exact IH.
Qed.

(** X1: for [words_per_line = 2^k], word number [n] (from 0) of a fresh
    generator carries the line number [n / 2^k], taken modulo 2^16, in its
    upper half and [0xFFFF] minus it in its lower half; after [n] words the
    generator's [line] is [n / 2^k]. *)
Theorem reference_word_closed_form (k n d : nat) :
  let q := Z.of_nat n / 2 ^ Z.of_nat k in
  (next_n (n + S d) (fresh (2 ^ Z.of_nat k))).1 !! n
  = Some (2 ^ 16 * (q mod 2 ^ 16) + (0xFFFF - q mod 2 ^ 16)) /\
  line (next_n n (fresh (2 ^ Z.of_nat k))).2 = q.
Proof.
  intros q.
  destruct (state_after_words k n) as (_ & _ & Hline & Hhi & Hlo).
  split; [| exact Hline].
  rewrite next_n_lookup. unfold NullSrcSinkReferenceData_next. cbn [fst].
  rewrite Hhi, Hlo. fold q.
  assert (Ha : 0 <= q mod 2 ^ 16 < 2 ^ 16) by (apply Z.mod_pos_bound; lia).
  rewrite lor_halves by lia. reflexivity.
Qed.

(** X2: the sequence of a generator with [words_per_line = 2^k] repeats
    after 2^16 lines, that is after [2^16 * 2^k] words. *)
Theorem reference_words_periodic (k n d : nat) :
  let period := Z.to_nat (2 ^ 16 * 2 ^ Z.of_nat k) in
  (next_n (n + period + S d) (fresh (2 ^ Z.of_nat k))).1 !! (n + period)%nat
  = (next_n (n + S d) (fresh (2 ^ Z.of_nat k))).1 !! n.
Proof.
  intros period.
  assert (Hm : 0 < 2 ^ Z.of_nat k) by (apply Z.pow_pos_nonneg; lia).
  rewrite !next_n_lookup.
  destruct (state_after_words k n) as (_ & _ & _ & Hhi & Hlo).
  destruct (state_after_words k (n + period)) as (_ & _ & _ & Hhi' & Hlo').
  unfold NullSrcSinkReferenceData_next. cbn [fst].
  rewrite Hhi, Hlo, Hhi', Hlo'.
  replace (Z.of_nat (n + period))
    with (Z.of_nat n + 2 ^ 16 * 2 ^ Z.of_nat k) by (subst period; lia).
  rewrite Z.div_add by lia.
  assert (Hper : forall q, (q + 2 ^ 16) mod 2 ^ 16 = q mod 2 ^ 16).
  { intros q. replace (q + 2 ^ 16) with (q + 1 * 2 ^ 16) by lia.
    apply Z.mod_add. lia. }
  rewrite !Hper. reflexivity.
Qed.

(** A generator whose mask is negative never changes line. *)
Lemma negative_mask_state (n : nat) :
  forall self,
    it_mask self < 0 -> 0 <= iteration self ->
    Forall (fun w => w = Z.lor (hi self) (lo self)) (next_n n self).1 /\
    line (next_n n self).2 = line self.
Proof.
  induction n as [| n IH]; intros self Hmask Hiter; [split; [constructor | reflexivity] |].
  assert (Hsame : line_change self = false).
  { unfold line_change. apply Z.eqb_neq. intros Heq.
    assert (0 <= Z.land (iteration self) (it_mask self))
      by (apply Z.land_nonneg; left; exact Hiter).
    lia. }
  cbn [next_n]. unfold NullSrcSinkReferenceData_next. rewrite Hsame.
  destruct (IH {| it_mask := it_mask self; iteration := iteration self + 1;
                  line := line self; hi := hi self; lo := lo self |})
    as [Hwords Hline]; [exact Hmask | cbn; lia |].
  destruct (next_n n _) as [ws self']. cbn [fst snd hi lo line] in *.
  split; [constructor; [reflexivity | exact Hwords] | exact Hline].
Qed.

(** X3: a generator built with [words_per_line <= 0] (zero in particular,
    which the constructor accepts) never advances: every word it produces
    is [0x0000FFFF] and its line stays 0. *)
Theorem nonpositive_words_per_line_never_advances (words_per_line : Z) (n : nat) :
  words_per_line <= 0 ->
  Forall (fun w => w = 0x0000FFFF) (next_n n (fresh words_per_line)).1 /\
  line (next_n n (fresh words_per_line)).2 = 0.
Proof.
  intros Hwpl.
  apply (negative_mask_state n (fresh words_per_line)); cbn; lia.
Qed.

Lemma nonpositive_words_per_line_never_advances_witness :
  Forall (fun w => w = 0x0000FFFF) (next_n 5 (fresh 0)).1 /\
  line (next_n 5 (fresh 0)).2 = 0.
Proof.
  apply (nonpositive_words_per_line_never_advances 0 5). lia.
Defined.

End ReferenceDataMore.

(** * Further properties of reference-mode verification *)

Section VerifyDataMore.

Import Common NullSrcSink.

(** A capture the loop accepts is the reference, word for word. *)
Lemma verify_loop_accepts (rx_data : list Z) :
  forall null_ref,
    (verify_loop null_ref rx_data).1 = true ->
    rx_data = (next_n (length rx_data) null_ref).1.
Proof.
  induction rx_data as [| dat rx_data IH]; intros null_ref Hok; [reflexivity |].
  cbn [verify_loop length next_n] in *.
  destruct (NullSrcSinkReferenceData_next null_ref) as [reference null_ref'].
  destruct (dat =? reference) eqn:Hdat; cbn [negb] in Hok; [| discriminate Hok].
  apply Z.eqb_eq in Hdat. subst dat.
  specialize (IH null_ref' Hok).
  destruct (next_n (length rx_data) null_ref') as [ws s]. cbn [fst] in *.
  congruence.
Qed.

(** X4: [_verify_data] reports success exactly for the captures that are
    the first words of the reference sequence of a fresh generator with two
    words per line, whatever their length (the empty capture included). *)
Theorem verify_data_accepts_exactly_reference (rx_data : list Z) :
  _verify_data rx_data = Returned (true, ""%string)
  <-> rx_data = (next_n (length rx_data) (fresh 2)).1.
Proof.
  split.
  - intros Hok. apply verify_loop_accepts.
    unfold _verify_data in Hok. cbn [NullSrcSinkReferenceData_init] in Hok.
    injection Hok as Hok.
    change (NullSrcSinkReferenceData_iter {| mask := 2 - 1 |}) with (fresh 2) in Hok.
    rewrite Hok. reflexivity.
  - intros ->. apply verify_data_pass.
Qed.

(** X5: [_verify_data] stops at the first word that differs from the
    reference, whatever follows it: the result is a failure whose message
    gives the reference word as expected, the captured word as received,
    and as line the number [(n + 1) / 2] the generator is at once the
    reference word of index [n] has been taken. *)
Theorem verify_data_stops_at_first_mismatch (n : nat) (dat : Z) (rest : list Z) :
  let reference := (NullSrcSinkReferenceData_next (next_n n (fresh 2)).2).1 in
  dat <> reference ->
  _verify_data ((next_n n (fresh 2)).1 ++ dat :: rest)
  = Returned (false,
      ("mismatch in line " +:+ format_int 10 2 (Z.of_nat (S n) / 2)
         +:+ " expected: 0x" +:+ format_int 16 8 reference
         +:+ ", received: 0x" +:+ format_int 16 8 dat)%string).
Proof.
  intros reference Hne.
  rewrite (verify_data_reported_line n dat rest Hne). reflexivity.
Qed.

Lemma verify_data_stops_at_first_mismatch_witness :
  _verify_data ((next_n 2 (fresh 2)).1 ++ [0; 7; 7])
  = Returned (false,
      "mismatch in line 01 expected: 0x0001fffe, received: 0x00000000"%string).
Proof.
  exact (verify_data_stops_at_first_mismatch 2 0 [7; 7] ltac:(vm_compute; discriminate)).
Defined.

End VerifyDataMore.

(** * Further properties of mirror-mode verification *)

Section CompareMore.

Import Host.
Local Open Scope nat_scope.

Implicit Types (l : list sample) (f : file).

(** Reading as many samples as a read delivered reads the same. *)
Lemma take_length_take l n : take (length (take n l)) l = take n l.
Proof.
  rewrite length_take. destruct (Nat.min_spec n (length l)) as [[_ ->] | [Hle ->]];
    [reflexivity |].
  rewrite !take_ge by lia. reflexivity.
Qed.

(** A file compared with itself passes, from any common cursor. *)
Lemma compare_loop_identical (fuel : nat) :
  forall rn cn l p total iters bs it,
    0 < bs -> total <= length l -> total - p < fuel ->
    compare_loop fuel
      {| name := rn; content := l; pos := p |}
      {| name := cn; content := l; pos := p |} total iters bs p it
    = Returned tt.
Proof.
  induction fuel as [| fuel IH]; intros rn cn l p total iters bs it Hbs Hlen Hfuel;
    [lia |].
  cbn [compare_loop].
  destruct (p <? total) eqn:Hp; [| reflexivity].
  apply Nat.ltb_lt in Hp.
  unfold fromfile. cbn [pos content name].
  assert (Hsize : 0 < length (take bs (drop p l)))
    by (rewrite length_take, length_drop; lia).
  rewrite (proj2 (Nat.eqb_neq _ 0)) by lia.
  rewrite bool_decide_eq_true_2 by reflexivity.
  apply IH; lia.
Qed.

(** X6: mirror verification round trip: a received file that holds the
    same samples as the reference file verifies, for every positive chunk
    size, every number of iterations and every [num_samples_total] up to
    the length of the files. *)
Theorem compare_identical_copy rn cn l total iters bs :
  0 < bs -> total <= length l ->
  compare {| name := rn; content := l; pos := 0 |}
          {| name := cn; content := l; pos := 0 |} total iters bs
  = Returned tt.
Proof.
  intros Hbs Hlen. unfold compare. apply compare_loop_identical; lia.
Qed.

Lemma compare_identical_copy_witness :
  compare {| name := "in.dat"; content := [(1, 0); (2, 0); (3, 0)]%Z; pos := 0 |}
          {| name := "out.dat"; content := [(1, 0); (2, 0); (3, 0)]%Z; pos := 0 |}
          3 1 2
  = Returned tt.
Proof.
  exact (compare_identical_copy "in.dat" "out.dat" [(1, 0); (2, 0); (3, 0)]%Z
           3 1 2 ltac:(lia) ltac:(simpl; lia)).
Defined.

(** While the files agree up to the common cursor, a successful run
    means they agree up to [total]. *)
Lemma compare_loop_sound (fuel : nat) :
  forall rn cn l l' p total iters bs it,
    0 < bs -> total <= length l ->
    take p l' = take p l ->
    compare_loop fuel
      {| name := rn; content := l; pos := p |}
      {| name := cn; content := l'; pos := p |} total iters bs p it
    = Returned tt ->
    take total l' = take total l.
Proof.
  induction fuel as [| fuel IH];
    intros rn cn l l' p total iters bs it Hbs Hlen Hagree Hrun;
    [discriminate Hrun |].
  cbn [compare_loop] in Hrun.
  destruct (p <? total) eqn:Hp.
  - apply Nat.ltb_lt in Hp.
    unfold fromfile in Hrun. cbn [pos content name] in Hrun.
    assert (Hsize : 0 < length (take bs (drop p l)))
      by (rewrite length_take, length_drop; lia).
    rewrite (proj2 (Nat.eqb_neq _ 0)) in Hrun by lia.
    destruct (length (take bs (drop p l')) =? 0); [discriminate Hrun |].
    case_bool_decide as Hchunk; [| discriminate Hrun].
    rewrite <- Hchunk in Hrun.
    refine (IH _ _ _ _ _ _ _ _ _ Hbs Hlen _ Hrun).
    rewrite <- !take_take_drop.
    rewrite Hagree. f_equal.
    rewrite take_length_take.
    rewrite Hchunk at 1. rewrite take_length_take. symmetry. exact Hchunk.
  - apply Nat.ltb_ge in Hp.
    apply (f_equal (take total)) in Hagree.
    rewrite !take_take in Hagree.
    rewrite !(Nat.min_l total p) in Hagree by lia. exact Hagree.
Qed.

(** X7: mirror verification is sound: when [compare] returns normally,
    with a positive chunk size and [num_samples_total] no larger than the
    reference file, the first [num_samples_total] samples of the received
    file are those of the reference file. *)
Theorem compare_success_means_equal rn cn l l' total iters bs :
  0 < bs -> total <= length l ->
  compare {| name := rn; content := l; pos := 0 |}
          {| name := cn; content := l'; pos := 0 |} total iters bs
  = Returned tt ->
  take total l' = take total l.
Proof.
  intros Hbs Hlen Hrun. unfold compare in Hrun.
  exact (compare_loop_sound _ rn cn l l' 0 total iters bs 0 Hbs Hlen eq_refl Hrun).
Qed.

Lemma compare_success_means_equal_witness :
  take 3 [(1, 0); (2, 0); (3, 0); (8, 8)]%Z = take 3 [(1, 0); (2, 0); (3, 0); (4, 0)]%Z.
Proof.
  apply (compare_success_means_equal "in.dat" "out.dat"
           [(1, 0); (2, 0); (3, 0); (4, 0)]%Z [(1, 0); (2, 0); (3, 0); (8, 8)]%Z
           3 1 1); [lia | simpl; lia | vm_compute; reflexivity].
Defined.

(** Copies of one list commute with it. *)
Lemma concat_replicate_snoc l (n : nat) :
  concat (replicate n l) ++ l = l ++ concat (replicate n l).
Proof.
  induction n as [| n IH]; [rewrite app_nil_r; reflexivity |].
  cbn [replicate concat]. rewrite <- app_assoc, IH. reflexivity.
Qed.

Lemma length_concat_replicate l (n : nat) :
  length (concat (replicate n l)) = n * length l.
Proof.
  induction n as [| n IH]; [reflexivity |].
  cbn [replicate concat]. rewrite length_app, IH. reflexivity.
Qed.

(** The start of a playback: whole copies, then part of one. *)
Lemma take_playback l (n it pr : nat) :
  it < n -> pr <= length l ->
  take (it * length l + pr) (concat (replicate n l))
  = concat (replicate it l) ++ take pr l.
Proof.
  intros Hit Hpr.
  replace n with (it + S (n - S it)) by lia.
  rewrite replicate_add, concat_app.
  rewrite <- (length_concat_replicate l it).
  rewrite take_app_add. f_equal.
  cbn [replicate concat]. apply take_app_le. exact Hpr.
Qed.

(** With a chunk size of zero every read is empty: the loop rewinds the
    reference until the passes are used up and then reports it at its
    end, with nothing processed. *)
Lemma compare_loop_no_chunk (fuel : nat) :
  forall rf cf total iters processed it m,
    it <= iters ->
    compare_loop fuel rf cf total iters 0 processed it = Raised (EOFError m) ->
    processed < total /\ m = ReferenceEOF (name rf) iters processed.
Proof.
  induction fuel as [| fuel IH]; intros rf cf total iters processed it m Hit Hrun;
    [discriminate Hrun |].
  cbn [compare_loop] in Hrun.
  destruct (processed <? total) eqn:Hp; [| discriminate Hrun].
  apply Nat.ltb_lt in Hp.
  unfold fromfile in Hrun. rewrite take_0 in Hrun.
  cbn [length Nat.eqb] in Hrun.
  destruct (it <? iters) eqn:Hlt.
  - apply Nat.ltb_lt in Hlt. apply IH in Hrun; [exact Hrun | lia].
  - apply Nat.ltb_ge in Hlt. injection Hrun as <-.
    split; [exact Hp |]. f_equal. lia.
Qed.

(** What an [EOFError] of the loop says, with a positive chunk size and
    from a state in which [it] whole copies of the reference and the
    first [pr] samples of one more have been found in the received file. *)
Lemma compare_loop_eof (fuel : nat) :
  forall rn cn l l' pr processed total iters bs it m,
    0 < bs -> it <= iters -> pr <= length l -> processed <= length l' ->
    processed = it * length l + pr ->
    take processed l' = concat (replicate it l) ++ take pr l ->
    compare_loop fuel
      {| name := rn; content := l; pos := pr |}
      {| name := cn; content := l'; pos := processed |}
      total iters bs processed it
    = Raised (EOFError m) ->
    exists p,
      p < total /\
      take p l' = take p (concat (replicate (S iters) l)) /\
      ((m = ReferenceEOF rn iters p /\ p = S iters * length l /\ p <= length l') \/
       (m = ReceivedEOF cn p /\ p = length l' /\ p < S iters * length l)).
Proof.
  induction fuel as [| fuel IH];
    intros rn cn l l' pr processed total iters bs it m
      Hbs Hit Hpr Hpc Hcount Hsame Hrun;
    [discriminate Hrun |].
  cbn [compare_loop] in Hrun.
  destruct (processed <? total) eqn:Hp; [| discriminate Hrun].
  apply Nat.ltb_lt in Hp.
  unfold fromfile in Hrun. cbn [pos content name] in Hrun.
  assert (Hplayed : take processed l'
                    = take processed (concat (replicate (S iters) l)))
    by (rewrite Hsame, Hcount; symmetry; apply take_playback; lia).
  destruct (length (take bs (drop pr l)) =? 0) eqn:Href.
  - apply Nat.eqb_eq in Href. rewrite length_take, length_drop in Href.
    assert (Hend : pr = length l) by lia.
    destruct (it <? iters) eqn:Hlt.
    + apply Nat.ltb_lt in Hlt. unfold seek in Hrun. cbn [pos content name] in Hrun.
      apply (IH rn cn l l' 0 processed total iters bs (it + 1) m); try lia;
        [| exact Hrun].
      rewrite Hsame, Hend, take_ge, take_0, app_nil_r by lia.
      replace (it + 1) with (S it) by lia. cbn [replicate concat].
      apply concat_replicate_snoc.
    + apply Nat.ltb_ge in Hlt. injection Hrun as <-.
      exists processed. split; [exact Hp |]. split; [exact Hplayed |].
      left. replace it with iters in * by lia.
      split; [reflexivity |]. split; [lia | exact Hpc].
  - apply Nat.eqb_neq in Href. rewrite length_take, length_drop in Href.
    destruct (length (take bs (drop processed l')) =? 0) eqn:Hrec.
    + apply Nat.eqb_eq in Hrec. rewrite length_take, length_drop in Hrec.
      injection Hrun as <-.
      exists processed. split; [exact Hp |]. split; [exact Hplayed |].
      right. split; [reflexivity |]. split; [lia | nia].
    + case_bool_decide as Hchunk; [| discriminate Hrun].
      assert (Hlen : length (take bs (drop pr l))
                     = length (take bs (drop processed l')))
        by (rewrite Hchunk; reflexivity).
      pose proof Hlen as Hlen'.
      rewrite !length_take, !length_drop in Hlen'.
      apply (IH rn cn l l' (pr + length (take bs (drop pr l)))
               (processed + length (take bs (drop pr l))) total iters bs it m);
        try assumption.
      * rewrite length_take, length_drop. lia.
      * rewrite length_take, length_drop. lia.
      * lia.
      * rewrite <- !take_take_drop, Hsame, <- app_assoc. do 2 f_equal.
        rewrite take_length_take.
        rewrite Hlen, take_length_take. symmetry. exact Hchunk.
      * rewrite <- Hlen in Hrun. exact Hrun.
Qed.

(** X8: an [EOFError] of [compare], run on two files from their starts,
    names the file that ran out, with the count of samples processed.
    That count [p] is below [num_samples_total], and the first [p] samples
    of the received file are those of the reference played [num_iterations
    + 1] times over.  When the message names the reference file, the
    iteration it shows is [num_iterations], the reference has been read to
    its end that many times and once more ([p] is [(num_iterations + 1)]
    times its size, nothing at all for a chunk size of zero), and the
    received file holds at least these [p] samples.  When it names the
    received file, that file holds exactly the [p] samples processed and
    the reference had not been used up. *)
Theorem compare_eof_names_file rn cn l l' total iters bs m :
  compare {| name := rn; content := l; pos := 0 |}
          {| name := cn; content := l'; pos := 0 |} total iters bs
  = Raised (EOFError m) ->
  exists p,
    p < total /\
    take p l' = take p (concat (replicate (S iters) l)) /\
    ((m = ReferenceEOF rn iters p /\
      p = (if bs =? 0 then 0 else S iters * length l) /\ p <= length l') \/
     (m = ReceivedEOF cn p /\ p = length l' /\ p < S iters * length l)).
Proof.
  intros Hrun. unfold compare in Hrun.
  destruct (bs =? 0) eqn:Hbs.
  - apply Nat.eqb_eq in Hbs. subst bs.
    apply compare_loop_no_chunk in Hrun as [Hp ->]; [| lia].
    exists 0. split; [exact Hp |]. split; [reflexivity |].
    left. split; [reflexivity |]. split; [reflexivity | lia].
  - apply Nat.eqb_neq in Hbs.
    apply compare_loop_eof in Hrun; [exact Hrun | lia | lia | lia | lia | lia |].
    reflexivity.
Qed.

Lemma compare_eof_names_file_witness :
  exists p,
    p < 6 /\
    take p [(1, 0); (2, 0); (1, 0); (2, 0); (1, 0); (2, 0)]%Z
    = take p (concat (replicate (S 1) [(1, 0); (2, 0)]%Z)) /\
    ((ReferenceEOF "in.dat" 1 4 = ReferenceEOF "in.dat" 1 p /\
      p = (if 2 =? 0 then 0 else S 1 * length [(1, 0); (2, 0)]%Z) /\
      p <= length [(1, 0); (2, 0); (1, 0); (2, 0); (1, 0); (2, 0)]%Z) \/
     (ReferenceEOF "in.dat" 1 4 = ReceivedEOF "out.dat" p /\
      p = length [(1, 0); (2, 0); (1, 0); (2, 0); (1, 0); (2, 0)]%Z /\
      p < S 1 * length [(1, 0); (2, 0)]%Z)).
Proof.
  apply (compare_eof_names_file "in.dat" "out.dat" [(1, 0); (2, 0)]%Z
           [(1, 0); (2, 0); (1, 0); (2, 0); (1, 0); (2, 0)]%Z 6 1 2).
  vm_compute. reflexivity.
Defined.

(** The other file: a received file of two samples, compared with a
    reference of four in chunks of two, is the one that runs out, after
    the two samples of the first chunk. *)
Example compare_short_received_file :
  compare {| name := "in.dat";
             content := [(1, 0); (2, 0); (3, 0); (4, 0)]%Z; pos := 0 |}
          {| name := "out.dat"; content := [(1, 0); (2, 0)]%Z; pos := 0 |}
          4 1 2
  = Raised (EOFError (ReceivedEOF "out.dat" 2)).
Proof. vm_compute. reflexivity. Qed.

(** X9: the loop of [compare] always comes to an end: it returns or
    raises within [num_samples_total + num_iterations + 1] rounds, for all
    files and every chunk size, zero included. *)
Theorem compare_returns_or_raises rf cf total iters bs :
  compare rf cf total iters bs = Returned tt \/
  exists e, compare rf cf total iters bs = Raised e.
Proof.
  pose proof (compare_terminates rf cf total iters bs) as Hterm.
  destruct (compare rf cf total iters bs) as [[] | e |];
    [left; reflexivity | right; exists e; reflexivity | congruence].
Qed.

End CompareMore.

(** * Further properties of the transmit pump *)

Section TransmitMore.

Import Host.
Local Open Scope nat_scope.

Context {tx_state : Type}.
Variable send : tx_state -> list (list sample) -> nat * tx_state.

Implicit Types (w : tx_world tx_state) (f : file).

(** Files read to their end are files about to be rewound. *)
Lemma tx_at_rewindable num_chans buffer_size size p w :
  tx_at num_chans buffer_size size p w ->
  tx_inv num_chans buffer_size size 0 0 (fun _ => True) w.
Proof.
  intros (Hshape & Hwf & Hlen & Hfiles).
  repeat (split; [assumption |]).
  intros idx f Hf. destruct (Hfiles idx f Hf) as (Hs & _ & _).
  split; [exact Hs |]. split; [lia | trivial].
Qed.

(** At least [ceil(a / b)] pieces of at most [b] are needed to make [a]. *)
Lemma ceil_div_le (a b n : nat) : 0 < b -> a <= b * n -> ceil_div a b <= n.
Proof.
  intros Hb Hle. unfold ceil_div. apply Nat.lt_succ_r.
  apply Nat.Div0.div_lt_upper_bound. lia.
Qed.

(** The outer loop: every remaining iteration transmits the whole source. *)
Lemma iteration_loop_drains num_chans buffer_size size budget iterations
    (fuel : nat) :
  0 < num_chans -> send_takes_some send ->
  0 < buffer_size -> buffer_size < budget -> size < budget ->
  forall iteration num_tx w,
    iteration <= iterations -> iterations - iteration < fuel ->
    tx_inv num_chans buffer_size size 0 0 (fun _ => True) w ->
    exists w' new,
      iteration_loop send budget fuel num_chans buffer_size iterations
        iteration num_tx w
      = (Returned (num_tx + (iterations - iteration) * size), w') /\
      tx_inv num_chans buffer_size size 0 0 (fun _ => True) w' /\
      tx_sends w' = tx_sends w ++ new /\
      (iterations - iteration) * ceil_div size buffer_size <= length new.
Proof.
  intros Hchans Hsend Hbs Hbudget Hsize.
  induction fuel as [| fuel IH]; intros iteration num_tx w Hle Hfuel Hinv; [lia |].
  cbn [iteration_loop].
  destruct (iteration <? iterations) eqn:Hlt.
  - apply Nat.ltb_lt in Hlt.
    destruct (seek_loop_run num_chans buffer_size size Hchans num_chans 0 w)
      as (w1 & Hseek & Hat1 & Hsends1 & _); [reflexivity | exact Hinv |].
    destruct (chunk_loop_drains send num_chans buffer_size size Hchans Hsend
                budget budget 0 num_tx w1)
      as (w2 & new1 & Hrun & Hat2 & Hsends2 & Hcount);
      [lia | lia | lia | lia | exact Hat1 |].
    destruct (IH (iteration + 1) (num_tx + (size - 0)) w2)
      as (w3 & new2 & Hrest & Hinv3 & Hsends3 & Hcount3);
      [lia | lia | exact (tx_at_rewindable _ _ _ _ _ Hat2) |].
    exists w3, (new1 ++ new2).
    split; [| split; [exact Hinv3 | split]].
    + erewrite bind_returned by exact Hseek.
      erewrite bind_returned by exact Hrun.
      rewrite Hrest. do 2 f_equal.
      replace (iterations - iteration) with (S (iterations - (iteration + 1))) by lia.
      lia.
    + rewrite Hsends3, Hsends2, Hsends1, <- app_assoc. reflexivity.
    + rewrite length_app.
      pose proof (ceil_div_le size buffer_size (length new1) Hbs ltac:(lia)).
      replace (iterations - iteration) with (S (iterations - (iteration + 1))) by lia.
      lia.
  - apply Nat.ltb_ge in Hlt.
    exists w, []. rewrite app_nil_r.
    replace (iterations - iteration) with 0 by lia.
    split; [unfold mret, M_ret; do 2 f_equal; lia |].
    split; [exact Hinv |]. split; [reflexivity | cbn; lia].
Qed.

(** X10: repeated playback: with files of [S] samples for every channel
    (none at all included), a buffer of [B > 0] samples and a streamer
    whose [send] takes between one sample and all it is offered, the pump
    run for [iterations] iterations returns [iterations * S], after at
    least [iterations * ceil(S / B)] calls of [send]; zero iterations
    transmit nothing: the pump returns 0 with the streamer, the buffer,
    the files and the list of slices sent as they were. *)
Theorem tx_function_repeats_source w S B fuel iterations :
  send_takes_some send ->
  0 < length (tx_files w) ->
  shape (tx_buffer w) = (length (tx_files w), B) ->
  ndarray_wf (tx_buffer w) ->
  Forall (fun f => length (content f) = S) (tx_files w) ->
  0 < B -> B < fuel -> S < fuel -> iterations < fuel ->
  exists w' new,
    tx_function send fuel iterations w = (Returned (iterations * S), w') /\
    tx_sends w' = tx_sends w ++ new /\
    iterations * ceil_div S B <= length new /\
    (iterations = 0 -> w' = w /\ new = []).
Proof.
  intros Hsend Hchans Hshape Hwf Hsizes HB HBfuel HSfuel Hfuel.
  destruct (iteration_loop_drains (length (tx_files w)) B S fuel iterations fuel
              Hchans Hsend HB HBfuel HSfuel 0 0 w)
    as (w' & new & Hrun & _ & Hsends & Hcount); [lia | lia | |].
  { split; [exact Hshape |]. split; [exact Hwf |]. split; [reflexivity |].
    intros idx f Hf. split; [exact (Forall_lookup_1 _ _ _ _ Hsizes Hf) |].
    split; [lia | trivial]. }
  exists w', new.
  rewrite Nat.sub_0_r in Hrun, Hcount.
  split; [unfold tx_function; rewrite Hshape; cbn [fst snd]; exact Hrun |].
  split; [exact Hsends |]. split; [exact Hcount |].
  intros ->. destruct fuel as [| fuel']; [lia |].
  cbn [iteration_loop Nat.ltb Nat.leb] in Hrun. injection Hrun as <-.
  split; [reflexivity |].
  rewrite <- (app_nil_r (tx_sends w)) in Hsends at 1.
  apply app_inv_head in Hsends. symmetry. exact Hsends.
Qed.

(** X11: a transmit buffer without channels makes the pump fail before
    anything is sent: with at least one iteration asked for, the test of
    [buffer_len_current], which the empty loop over the channels never
    assigned, raises [UnboundLocalError]. *)
Theorem tx_function_without_channels w fuel iterations buffer_size :
  shape (tx_buffer w) = (0, buffer_size) ->
  0 < iterations ->
  tx_function send (S fuel) iterations w
  = (Raised (UnboundLocalError "buffer_len_current"), w).
Proof.
  intros Hshape Hiter. unfold tx_function. rewrite Hshape. cbn [fst snd].
  cbn [iteration_loop]. rewrite (proj2 (Nat.ltb_lt 0 iterations) Hiter).
  cbn [seq for_each].
  erewrite bind_returned by reflexivity.
  erewrite bind_raised; [reflexivity |].
  cbn [chunk_loop seq read_channels].
  erewrite bind_returned by reflexivity. reflexivity.
Qed.

End TransmitMore.

Section TransmitMoreExamples.

Import Host.
Local Open Scope nat_scope.

Lemma tx_function_repeats_source_witness :
  exists w' new,
    tx_function (limited_send 1) 6 3 tx_world_5_2 = (Returned (3 * 5), w') /\
    tx_sends w' = tx_sends tx_world_5_2 ++ new /\
    3 * ceil_div 5 2 <= length new /\
    (3 = 0 -> w' = tx_world_5_2 /\ new = []).
Proof.
  apply (tx_function_repeats_source (limited_send 1) tx_world_5_2 5 2 6 3).
  - exact (limited_send_takes_some 1 ltac:(lia)).
  - simpl. lia.
  - reflexivity.
  - split; [reflexivity |]. simpl. repeat constructor.
  - simpl. repeat constructor.
  - lia.
  - lia.
  - lia.
  - lia.
Defined.

Lemma tx_function_without_channels_witness :
  tx_function (limited_send 1) (S 3) 1
    {| tx_streamer := 0; tx_buffer := zeros 0 4; tx_files := []; tx_sends := [] |}
  = (Raised (UnboundLocalError "buffer_len_current"),
     {| tx_streamer := 0; tx_buffer := zeros 0 4; tx_files := []; tx_sends := [] |}).
Proof.
  apply (tx_function_without_channels (limited_send 1) _ 3 1 4);
    [reflexivity | lia].
Defined.

End TransmitMoreExamples.

(** * Further properties of the receive pump *)

Section ReceiveMore.

Import Host Scripts.
Local Open Scope nat_scope.

Context {rx_state : Type}.
Variable recv : rx_state -> ndarray -> (ndarray * RXMetadata * nat) * rx_state.
Variable error_code_name : RXMetadataErrorCode -> string.

Implicit Types (w : rx_world rx_state) (f : file).

(** Appending to the file of channel [i] extends the part of the files
    that has the new samples by one channel. *)
Lemma rx_files_upto_insert i written added (fs : list file) f data :
  i < length fs ->
  rx_files_upto i written added fs ->
  fs !! i = Some f -> length data = added ->
  rx_files_upto (S i) written added (<[i := tofile data f]> fs).
Proof.
  intros Hi Hfs Hf Hdata idx g Hg.
  destruct (decide (idx = i)) as [-> | Hne].
  - rewrite list_lookup_insert_eq in Hg by lia. injection Hg as <-.
    destruct (Hfs i f Hf) as (Hpos & _ & Hlen). specialize (Hlen ltac:(lia)).
    unfold tofile. cbn [pos content].
    rewrite Hpos, take_ge, (drop_ge (content f)) by lia.
    rewrite app_nil_r, length_app.
    split; [reflexivity |]. split; [lia | lia].
  - rewrite list_lookup_insert_ne in Hg by congruence.
    destruct (Hfs idx g Hg) as (Hpos & Hdone & Htodo).
    split; [exact Hpos |]. split; [intros; apply Hdone | intros; apply Htodo]; lia.
Qed.

(** The loop that writes the received samples to every file. *)
Lemma tofile_loop_run num_chans buffer_size written received (k : nat) :
  received <= buffer_size ->
  forall i w,
    i + k = num_chans ->
    shape (rx_buffer w) = (num_chans, buffer_size) ->
    ndarray_wf (rx_buffer w) ->
    length (rx_files w) = num_chans ->
    rx_files_upto i written received (rx_files w) ->
    exists w',
      for_each (seq i k) (rx_tofile received) w = (Returned tt, w') /\
      rx_buffer w' = rx_buffer w /\ rx_streamer w' = rx_streamer w /\
      stdout w' = stdout w /\
      length (rx_files w') = num_chans /\
      rx_files_upto num_chans written received (rx_files w').
Proof.
  intros Hreceived.
  induction k as [| k IH]; intros i w Hik Hshape Hwf Hlen Hfiles.
  - exists w. replace i with num_chans in * by lia.
    repeat split; try reflexivity; try assumption; apply (Hfiles idx f H).
  - destruct Hwf as [Hrows Hrow].
    destruct (lookup_lt_is_Some_2 (rx_files w) i ltac:(lia)) as [f Hf].
    destruct (lookup_lt_is_Some_2 (rows (rx_buffer w)) i) as [row Hr];
      [rewrite Hrows, Hshape; cbn; lia |].
    set (w1 := {| rx_streamer := rx_streamer w; rx_buffer := rx_buffer w;
                  rx_files := <[i := tofile (take received row) f]> (rx_files w);
                  stdout := stdout w |}).
    destruct (IH (S i) w1) as (w' & Hrun & Hbuffer & Hstreamer & Hout & Hlen' & Hfiles');
      [lia | exact Hshape | exact (conj Hrows Hrow) | | |].
    + subst w1. cbn [rx_files]. rewrite length_insert. exact Hlen.
    + subst w1. cbn [rx_files].
      apply rx_files_upto_insert; [lia | exact Hfiles | exact Hf |].
      rewrite length_take.
      rewrite (Forall_lookup_1 _ _ _ _ Hrow Hr), Hshape. cbn. lia.
    + exists w'. split; [| exact (conj Hbuffer (conj Hstreamer (conj Hout
                                       (conj Hlen' Hfiles'))))].
      cbn [seq for_each].
      erewrite bind_returned; [exact Hrun |].
      unfold rx_tofile. rewrite Hr, Hf. reflexivity.
Qed.

(** The receive loop on a transport that is delivering. *)
Lemma rx_loop_delivers num_chans buffer_size num_samples written (fuel : nat) :
  recv_delivers recv num_chans buffer_size ->
  forall num_rx reported w,
    rx_sync num_chans buffer_size (written + num_rx) w ->
    num_samples - num_rx < fuel ->
    num_rx <= num_samples + (buffer_size - 1) ->
    exists w' n,
      rx_loop recv error_code_name fuel num_chans num_samples num_rx reported w
      = (Returned n, w') /\
      num_samples <= n <= num_samples + (buffer_size - 1) /\
      rx_sync num_chans buffer_size (written + n) w' /\
      stdout w' = stdout w.
Proof.
  intros Hdelivers.
  induction fuel as [| fuel IH]; intros num_rx reported w Hsync Hfuel Hbound; [lia |].
  cbn [rx_loop].
  destruct (num_rx <? num_samples) eqn:Hlt.
  - apply Nat.ltb_lt in Hlt.
    destruct Hsync as (Hshape & Hwf & Hlen & Hfiles).
    pose proof (Hdelivers (rx_streamer w) (rx_buffer w) Hshape Hwf)
      as (Hcode & Hcount & Hshape1 & Hwf1).
    destruct (recv (rx_streamer w) (rx_buffer w))
      as [[[buffer rx_md] received] st] eqn:Hrecv.
    cbn [fst snd] in Hcode, Hcount, Hshape1, Hwf1.
    set (w1 := {| rx_streamer := st; rx_buffer := buffer;
                  rx_files := rx_files w; stdout := stdout w |}).
    destruct (tofile_loop_run num_chans buffer_size (written + num_rx) received
                num_chans ltac:(lia) 0 w1)
      as (w2 & Hwrite & Hbuffer2 & _ & Hout2 & Hlen2 & Hfiles2);
      [lia | exact Hshape1 | exact Hwf1 | exact Hlen | |].
    { intros idx f Hf. destruct (Hfiles idx f Hf) as (Hpos & _ & Hsize).
      split; [exact Hpos |]. split; [lia | intros _; rewrite Hsize; lia]. }
    destruct (IH (num_rx + received) reported w2)
      as (w' & n & Hrun & Hn & Hsync' & Hout'); [| lia | lia |].
    { split; [rewrite Hbuffer2; exact Hshape1 |].
      split; [rewrite Hbuffer2; exact Hwf1 |]. split; [exact Hlen2 |].
      intros idx f Hf. destruct (Hfiles2 idx f Hf) as (Hpos & Hsize & _).
      pose proof (lookup_lt_Some _ _ _ Hf).
      split; [exact Hpos |]. split; [lia | intros _; rewrite Hsize; lia]. }
    exists w', n.
    split; [| split; [exact Hn | split; [exact Hsync' |]]].
    + erewrite bind_returned by (unfold rx_recv; rewrite Hrecv; reflexivity).
      cbn beta iota.
      erewrite bind_returned by exact Hwrite.
      rewrite Hcode.
      rewrite (bool_decide_eq_false_2 (none = timeout)) by discriminate.
      rewrite (bool_decide_eq_false_2 (none = overflow)) by discriminate.
      erewrite bind_returned by reflexivity.
      rewrite (bool_decide_eq_false_2 (none <> none)) by congruence.
      exact Hrun.
    + rewrite Hout', Hout2. reflexivity.
  - apply Nat.ltb_ge in Hlt.
    exists w, num_rx. split; [reflexivity |].
    split; [lia |]. split; [exact Hsync | reflexivity].
Qed.

(** X12: on a transport that keeps delivering, between one sample and a
    buffer full per call and without error, the receive pump returns a
    count [n] that reaches [num_samples] and overshoots it by less than a
    buffer; it prints nothing, and every channel's file has grown by
    exactly those [n] samples, the files moving in lockstep. *)
Theorem rx_function_fills_files w fuel num_samples buffer_size written :
  recv_delivers recv (length (rx_files w)) buffer_size ->
  shape (rx_buffer w) = (length (rx_files w), buffer_size) ->
  ndarray_wf (rx_buffer w) ->
  Forall (fun f => length (content f) = written /\ pos f = written) (rx_files w) ->
  num_samples < fuel ->
  exists w' n,
    rx_function recv error_code_name fuel num_samples w = (Returned n, w') /\
    num_samples <= n <= num_samples + (buffer_size - 1) /\
    stdout w' = stdout w /\
    length (rx_files w') = length (rx_files w) /\
    Forall (fun f => length (content f) = written + n /\ pos f = written + n)
      (rx_files w').
Proof.
  intros Hdelivers Hshape Hwf Hfiles Hfuel.
  destruct (rx_loop_delivers (length (rx_files w)) buffer_size num_samples written
              fuel Hdelivers 0 false w)
    as (w' & n & Hrun & Hn & Hsync & Hout); [| lia | lia |].
  { split; [exact Hshape |]. split; [exact Hwf |]. split; [reflexivity |].
    intros idx f Hf. destruct (Forall_lookup_1 _ _ _ _ Hfiles Hf) as [Hsize Hpos].
    split; [lia |]. split; [lia | intros _; lia]. }
  exists w', n.
  split; [unfold rx_function; rewrite Hshape; exact Hrun |].
  split; [exact Hn |]. split; [exact Hout |].
  destruct Hsync as (_ & _ & Hlen & Hsync). split; [exact Hlen |].
  apply Forall_lookup_2. intros idx f Hf.
  destruct (Hsync idx f Hf) as (Hpos & _ & Hsize). specialize (Hsize ltac:(lia)).
  split; [lia | lia].
Qed.

(** X13: a [recv] that reports a timeout ends the pump at once: the
    samples it delivered are still written and counted, "RX timeout" is
    the one line printed, and the count so far is returned.  Any other
    error code that is not an overflow ends it the same way, with the
    line "Got an error indication: " and the transport's error text. *)
Theorem rx_loop_stops_on_error fuel num_chans num_samples num_rx reported
    (w w2 : rx_world rx_state) buffer rx_md received st :
  num_rx < num_samples ->
  recv (rx_streamer w) (rx_buffer w) = (buffer, rx_md, received, st) ->
  for_each (seq 0 num_chans) (rx_tofile received)
    {| rx_streamer := st; rx_buffer := buffer;
       rx_files := rx_files w; stdout := stdout w |}
  = (Returned tt, w2) ->
  error_code rx_md <> none -> error_code rx_md <> overflow ->
  rx_loop recv error_code_name (S fuel) num_chans num_samples num_rx reported w
  = (Returned (num_rx + received),
     {| rx_streamer := rx_streamer w2; rx_buffer := rx_buffer w2;
        rx_files := rx_files w2;
        stdout := stdout w2
                    ++ [if bool_decide (error_code rx_md = timeout)
                        then "RX timeout"%string
                        else ("Got an error indication: " +:+ strerror rx_md)%string] |}).
Proof.
  intros Hlt Hrecv Hfiles Herror Hoverflow.
  cbn [rx_loop]. rewrite (proj2 (Nat.ltb_lt _ _) Hlt).
  erewrite bind_returned by (unfold rx_recv; rewrite Hrecv; reflexivity).
  cbn beta iota.
  erewrite bind_returned by exact Hfiles.
  case_bool_decide as Htimeout; [reflexivity |].
  rewrite (bool_decide_eq_false_2 (error_code rx_md = overflow)) by exact Hoverflow.
  erewrite bind_returned by reflexivity.
  rewrite bool_decide_eq_true_2 by exact Herror. reflexivity.
Qed.

End ReceiveMore.

Section ReceiveMoreExamples.

Import Host Scripts.
Local Open Scope nat_scope.

Lemma steady_recv_delivers (chunk num_chans buffer_size : nat) :
  1 <= chunk <= buffer_size ->
  recv_delivers (steady_recv chunk) num_chans buffer_size.
Proof.
  intros Hchunk st buffer Hshape Hwf. unfold steady_recv. cbn [fst snd].
  split; [reflexivity |]. split; [exact Hchunk |]. split; assumption.
Qed.

Lemma rx_function_fills_files_witness :
  exists w' n,
    rx_function (steady_recv 3) scripted_name 8 7 rx_world_fresh
    = (Returned n, w') /\
    7 <= n <= 7 + (4 - 1) /\
    stdout w' = stdout rx_world_fresh /\
    length (rx_files w') = length (rx_files rx_world_fresh) /\
    Forall (fun f => length (content f) = 0 + n /\ pos f = 0 + n) (rx_files w').
Proof.
  apply (rx_function_fills_files (steady_recv 3) scripted_name rx_world_fresh
           8 7 4 0).
  - exact (steady_recv_delivers 3 1 4 ltac:(lia)).
  - reflexivity.
  - split; [reflexivity |]. simpl. repeat constructor.
  - simpl. repeat constructor.
  - lia.
Defined.

Lemma rx_loop_stops_on_error_witness :
  rx_loop scripted_recv scripted_name (S 3) 1 6 0 false
    {| rx_streamer := []; rx_buffer := zeros 1 4;
       rx_files := [ {| name := "out.dat"; content := []; pos := 0 |} ];
       stdout := [] |}
  = (Returned (0 + 0),
     {| rx_streamer := []; rx_buffer := zeros 1 4;
        rx_files := [ {| name := "out.dat"; content := []; pos := 0 |} ];
        stdout := [] ++ ["RX timeout"%string] |}).
Proof.
  apply (rx_loop_stops_on_error scripted_recv scripted_name 3 1 6 0 false
           {| rx_streamer := []; rx_buffer := zeros 1 4;
              rx_files := [ {| name := "out.dat"; content := []; pos := 0 |} ];
              stdout := [] |}
           {| rx_streamer := []; rx_buffer := zeros 1 4;
              rx_files := [ {| name := "out.dat"; content := []; pos := 0 |} ];
              stdout := [] |}
           (zeros 1 4)
           {| error_code := timeout; out_of_sequence := false;
              strerror := "ERROR_CODE_TIMEOUT" |} 0 []).
  - lia.
  - reflexivity.
  - reflexivity.
  - discriminate.
  - discriminate.
Defined.

End ReceiveMoreExamples.

(** * Properties of the other functions of the scripts *)

Section FlushFacts.

Import Host Scripts.
Local Open Scope nat_scope.

(** The flush loop on a script whose first empty answer comes after the
    answers [pending]. *)
Lemma flush_loop_script (pending : list (nat * RXMetadata)) :
  forall fuel rx_md rest rx_data num_rx total,
    Forall (fun answer => answer.1 <> 0) pending ->
    num_rx <> Some 0 ->
    length pending + 1 < fuel ->
    flush_loop scripted_recv fuel (pending ++ (0, rx_md) :: rest) rx_data
      num_rx total
    = Some (rest, total + script_total pending).
Proof.
  induction pending as [| [received md] pending IH];
    intros fuel rx_md rest rx_data num_rx total Hpending Hnum Hfuel.
  - destruct fuel as [| [| fuel]]; [cbn in Hfuel; lia | cbn in Hfuel; lia |].
    cbn [app flush_loop scripted_recv].
    rewrite bool_decide_eq_true_2 by exact Hnum.
    rewrite bool_decide_eq_false_2 by (intros Hne; apply Hne; reflexivity).
    reflexivity.
  - destruct fuel as [| fuel]; [lia |].
    apply Forall_cons_1 in Hpending as [Hreceived Hpending]. cbn [fst] in Hreceived.
    cbn [app flush_loop scripted_recv].
    rewrite bool_decide_eq_true_2 by exact Hnum.
    rewrite IH; [| exact Hpending | congruence | cbn [length] in Hfuel; lia].
    unfold script_total. cbn [fmap list_fmap sum_list sum_list_with fst].
    unfold id. f_equal. f_equal. lia.
Qed.

(** X14: [rx_streamer_flush] takes the answers of the transport up to and
    with the first empty one, and leaves what follows it untouched; it
    prints "Flushed N samples from RX streamer", with the total [N] of
    what it took, when that total is positive, and nothing when it is 0. *)
Theorem rx_streamer_flush_script fuel num_channels pending rx_md rest stdout :
  Forall (fun answer => answer.1 <> 0) pending ->
  length pending + 1 < fuel ->
  rx_streamer_flush scripted_recv fuel num_channels
    (pending ++ (0, rx_md) :: rest) stdout
  = Returned (rest,
              if 0 <? script_total pending then
                stdout ++ ["Flushed " +:+ pretty (script_total pending)
                             +:+ " samples from RX streamer"]
              else stdout).
Proof.
  intros Hpending Hfuel. unfold rx_streamer_flush.
  rewrite flush_loop_script by (assumption || discriminate).
  reflexivity.
Qed.

Lemma rx_streamer_flush_script_witness :
  rx_streamer_flush scripted_recv 4 1
    ([(3, md_none); (2, md_none)] ++ (0, md_none) :: [(5, md_none)]) []
  = Returned ([(5, md_none)],
              if 0 <? script_total [(3, md_none); (2, md_none)] then
                [] ++ ["Flushed " +:+ pretty (script_total [(3, md_none); (2, md_none)])
                         +:+ " samples from RX streamer"]
              else []).
Proof.
  apply (rx_streamer_flush_script 4 1 [(3, md_none); (2, md_none)] md_none
           [(5, md_none)] []).
  - repeat constructor; simpl; lia.
  - simpl. lia.
Defined.

End FlushFacts.

Section FilenameFacts.

Import Host Scripts.
Local Open Scope nat_scope.

Variable splitext : string -> string * string.

(** X15: [get_filenames] returns one name per channel, and it returns
    exactly when it was given as many names as there are channels or a
    single name; with any other number of names it raises [ValueError]. *)
Theorem get_filenames_one_per_channel (filenames : list string) (channels : list Z) :
  match get_filenames splitext filenames channels with
  | Returned names =>
      length names = length channels /\
      (length filenames = length channels \/ length filenames = 1)
  | Raised e =>
      length filenames <> length channels /\ length filenames <> 1 /\
      exists msg, e = ValueError msg
  | OutOfFuel => False
  end.
Proof.
  unfold get_filenames.
  destruct (length filenames =? length channels) eqn:Hsame.
  - apply Nat.eqb_eq in Hsame. split; [exact Hsame | left; exact Hsame].
  - apply Nat.eqb_neq in Hsame.
    destruct (length filenames =? 1) eqn:Hone.
    + apply Nat.eqb_eq in Hone.
      destruct (splitext _) as [basename ext].
      split; [apply length_fmap | right; exact Hone].
    + apply Nat.eqb_neq in Hone.
      split; [exact Hsame |]. split; [exact Hone |]. eexists. reflexivity.
Qed.

(** Appending is length-additive, and cancels on the right. *)
Lemma string_length_app (s1 s2 : string) :
  String.length (s1 +:+ s2) = String.length s1 + String.length s2.
Proof.
  induction s1 as [| c s1 IH]; [reflexivity |].
  change (S (String.length (s1 +:+ s2)) = S (String.length s1 + String.length s2)).
  f_equal. exact IH.
Qed.

Lemma string_app_inj_r (s1 s2 e : string) : s1 +:+ e = s2 +:+ e -> s1 = s2.
Proof.
  revert s2. induction s1 as [| c s1 IH]; intros [| c2 s2] Heq.
  - reflexivity.
  - apply (f_equal String.length) in Heq.
    change (String.length e = S (String.length (s2 +:+ e))) in Heq.
    rewrite string_length_app in Heq. lia.
  - apply (f_equal String.length) in Heq.
    change (S (String.length (s1 +:+ e)) = String.length e) in Heq.
    rewrite string_length_app in Heq. lia.
  - change (String c (s1 +:+ e) = String c2 (s2 +:+ e)) in Heq.
    injection Heq as -> Heq. f_equal. apply IH. exact Heq.
Qed.

(** X16: when one file name is shared by several channels, channels with
    different numbers get different file names: the names made from a list
    of channels without repetition are without repetition. *)
Theorem get_filenames_distinct (filename : string) (channels : list Z) names :
  NoDup channels ->
  length channels <> 1 ->
  get_filenames splitext [filename] channels = Returned names ->
  NoDup names.
Proof.
  intros Hnodup Hmany Hrun. unfold get_filenames in Hrun.
  cbn [length] in Hrun.
  rewrite (proj2 (Nat.eqb_neq 1 (length channels))) in Hrun by lia.
  cbn [Nat.eqb head default] in Hrun. unfold id in Hrun.
  destruct (splitext filename) as [basename ext].
  injection Hrun as <-.
  apply NoDup_fmap_2; [| exact Hnodup].
  intros a b Heq.
  apply String.app_inj in Heq. apply String.app_inj in Heq.
  apply string_app_inj_r in Heq.
  exact (pretty_Z_inj _ _ Heq).
Qed.

End FilenameFacts.

Section FilenameExamples.

Import Host Scripts.
Local Open Scope nat_scope.

Lemma get_filenames_distinct_witness :
  NoDup ["in-chan0.dat"; "in-chan1.dat"]%string.
Proof.
  apply (get_filenames_distinct split_at_dot "in.dat" [0; 1]%Z).
  - apply (bool_decide_unpack _). vm_compute. exact I.
  - simpl. lia.
  - vm_compute. reflexivity.
Defined.

End FilenameExamples.

Section ConnectFacts.

Import Scripts.
Local Open Scope nat_scope.

Context {block : Type}.

(** X17: [connect_blocks] links the entries of [connections] into a
    chain: it adds one [connect] call less than there are entries (none
    for an empty list or a single entry), after the calls the graph has
    already seen, and call [k] goes from entry [k] to entry [k + 1],
    carrying [is_back_edge]. *)
Theorem connect_blocks_chain (graph : list (block * Z * block * Z * bool))
    (connections : list (block * Z)) (is_back_edge : bool) :
  length (connect_blocks graph connections is_back_edge)
  = length graph + (length connections - 1) /\
  (forall k, k < length graph ->
     connect_blocks graph connections is_back_edge !! k = graph !! k) /\
  (forall k src dst,
     connections !! k = Some src -> connections !! S k = Some dst ->
     connect_blocks graph connections is_back_edge !! (length graph + k)
     = Some (src.1, src.2, dst.1, dst.2, is_back_edge)).
Proof.
  unfold connect_blocks. split; [| split].
  - rewrite length_app, length_zip_with, length_take, length_drop. lia.
  - intros k Hk. apply lookup_app_l. exact Hk.
  - intros k src dst Hsrc Hdst.
    pose proof (lookup_lt_Some _ _ _ Hdst) as Hlen.
    rewrite lookup_app_r by lia.
    replace (length graph + k - length graph) with k by lia.
    rewrite lookup_zip_with, lookup_take, lookup_drop.
    rewrite decide_True by lia.
    rewrite Hsrc. cbn [mbind option_bind]. change (1 + k) with (S k).
    rewrite Hdst. reflexivity.
Qed.

End ConnectFacts.

Section ConnectExamples.

Import Scripts.

Lemma connect_blocks_chain_witness :
  connect_blocks [] [("tx", 0%Z); ("aurora", 1%Z); ("rx", 0%Z)]%string false
    !! (length (@nil (string * Z * string * Z * bool)) + 1)%nat
  = Some ("aurora", 1%Z, "rx", 0%Z, false)%string.
Proof.
  exact (proj2 (proj2 (connect_blocks_chain []
                         [("tx", 0%Z); ("aurora", 1%Z); ("rx", 0%Z)]%string false))
           1%nat ("aurora", 1%Z)%string ("rx", 0%Z)%string eq_refl eq_refl).
Defined.

End ConnectExamples.

Section CounterFacts.

Import Scripts.

(** The values of [wrap] are those of the type, and wrapping commutes with
    counting up and down. *)
Lemma wrap_range t x :
  - 2 ^ (bit_width t - 1) <= wrap t x < 2 ^ (bit_width t - 1).
Proof.
  unfold wrap. destruct t; cbn [bit_width];
    [pose proof (Z.mod_pos_bound (x + 2 ^ (8 - 1)) (2 ^ 8) ltac:(lia))
    | pose proof (Z.mod_pos_bound (x + 2 ^ (16 - 1)) (2 ^ 16) ltac:(lia))]; lia.
Qed.

Lemma wrap_add t x d : wrap t (wrap t x + d) = wrap t (x + d).
Proof.
  unfold wrap. f_equal.
  replace ((x + 2 ^ (bit_width t - 1)) mod 2 ^ bit_width t
           - 2 ^ (bit_width t - 1) + d + 2 ^ (bit_width t - 1))%Z
    with ((x + 2 ^ (bit_width t - 1)) mod 2 ^ bit_width t + d)%Z by lia.
  replace (x + d + 2 ^ (bit_width t - 1))%Z
    with (x + 2 ^ (bit_width t - 1) + d)%Z by lia.
  apply Z.add_mod_idemp_l. destruct t; cbn; lia.
Qed.

(** The counters after [n] values. *)
Lemma counter_state (n : nat) :
  forall t x y d,
    fromiter (n + S d)
      {| real_type := t; real := wrap t x; imag := wrap t y |} !! n
    = Some (wrap t (x + Z.of_nat n), wrap t (y - Z.of_nat n)).
Proof.
  induction n as [| n IH]; intros t x y d.
  - cbn [Nat.add fromiter ComplexCounterIter_next real imag].
    rewrite Z.add_0_r, Z.sub_0_r. reflexivity.
  - cbn [Nat.add fromiter ComplexCounterIter_next real imag real_type].
    replace (wrap t y - 1)%Z with (wrap t y + -1)%Z by lia.
    rewrite !wrap_add.
    change ((?v :: ?l) !! S n) with (l !! n).
    rewrite IH. do 3 f_equal; lia.
Qed.

(** X18: value number [n] (from 0) that [ComplexCounterIter] produces is
    the pair of [n] and [-1 - n], each wrapped to the element type; both
    parts are in the range of that type, and the imaginary part is always
    the complement of the real part: they add up to [-1]. *)
Theorem complex_counter_values (t : real_dtype) (n d : nat) :
  let re := wrap t (Z.of_nat n) in
  let im := wrap t (-1 - Z.of_nat n) in
  fromiter (n + S d) (ComplexCounterIter_iter {| cc_real_dtype := t |}) !! n
  = Some (re, im) /\
  (re + im = -1)%Z /\
  (- 2 ^ (bit_width t - 1) <= re < 2 ^ (bit_width t - 1))%Z /\
  (- 2 ^ (bit_width t - 1) <= im < 2 ^ (bit_width t - 1))%Z.
Proof.
  intros re im. split; [| split; [| split; apply wrap_range]].
  - unfold ComplexCounterIter_iter. cbn [cc_real_dtype].
    rewrite counter_state. reflexivity.
  - subst re im. unfold wrap.
    assert (Hm : forall h a, (0 < h)%Z ->
              ((a + h) mod (2 * h) - h + ((-1 - a + h) mod (2 * h) - h) = -1)%Z).
    { intros h a Hh.
      pose proof (Z.mod_pos_bound (a + h) (2 * h) ltac:(lia)) as Hr.
      pose proof (Z.div_mod (a + h) (2 * h) ltac:(lia)) as Hdm.
      rewrite <- (Z.mod_unique_pos (-1 - a + h) (2 * h) (- ((a + h) / (2 * h)))
                    (2 * h - 1 - (a + h) mod (2 * h))); [lia | lia | lia]. }
    destruct t; cbn [bit_width].
    + exact (Hm (2 ^ 7)%Z (Z.of_nat n) ltac:(lia)).
    + exact (Hm (2 ^ 15)%Z (Z.of_nat n) ltac:(lia)).
Qed.

(** X19: the values of [ComplexCounterIter] repeat after [2^w] values,
    [w] being the width of the element type: 256 values for [int8], 65536
    for [int16]. *)
Theorem complex_counter_periodic (t : real_dtype) (n d : nat) :
  let period := Z.to_nat (2 ^ bit_width t) in
  fromiter (n + period + S d) (ComplexCounterIter_iter {| cc_real_dtype := t |})
    !! (n + period)%nat
  = fromiter (n + S d) (ComplexCounterIter_iter {| cc_real_dtype := t |}) !! n.
Proof.
  intros period. unfold ComplexCounterIter_iter. cbn [cc_real_dtype].
  rewrite !counter_state. unfold wrap. do 3 f_equal.
  - replace (0 + Z.of_nat (n + period) + 2 ^ (bit_width t - 1))%Z
      with (0 + Z.of_nat n + 2 ^ (bit_width t - 1) + 1 * 2 ^ bit_width t)%Z
      by (subst period; destruct t; cbn [bit_width]; lia).
    apply Z.mod_add. destruct t; cbn; lia.
  - replace (-1 - Z.of_nat (n + period) + 2 ^ (bit_width t - 1))%Z
      with (-1 - Z.of_nat n + 2 ^ (bit_width t - 1) + (-1) * 2 ^ bit_width t)%Z
      by (subst period; destruct t; cbn [bit_width]; lia).
    apply Z.mod_add. destruct t; cbn; lia.
Qed.

End CounterFacts.

Section EvaluateFacts.

Import Host Scripts.
Local Open Scope nat_scope.

Implicit Types (errors : list report).

(** The counters pass the checks of step 8 exactly when nothing got lost
    on the link and no overflow or CRC error was counted. *)
Lemma check_statistics_clean (tx rx overflow crc : Z) :
  check_statistics tx rx overflow crc = []
  <-> (tx <= rx /\ overflow <= 0 /\ crc <= 0)%Z.
Proof.
  unfold check_statistics.
  destruct (Z.ltb_spec rx tx), (Z.ltb_spec 0 overflow), (Z.ltb_spec 0 crc);
    cbn [app]; split; try discriminate; try (intros; lia);
    try (intros _; repeat split; lia); reflexivity.
Qed.

(** One round of the loop of step 9. *)
Lemma verify_channels_cons channel channels num_rx iterations buffer_size errors :
  verify_channels (channel :: channels) num_rx iterations buffer_size errors
  = match compare_channel channel num_rx iterations buffer_size with
    | Returned _ => verify_channels channels num_rx iterations buffer_size errors
    | Raised (AssertionError m) =>
        verify_channels channels num_rx iterations buffer_size
          (errors ++ [Failure m])
    | Raised e => Raised e
    | OutOfFuel => OutOfFuel
    end.
Proof. destruct channel as [[in_name in_content] [out_name out_content]]. reflexivity. Qed.

(** The loop only adds to [errors], and adds nothing exactly when every
    comparison returned. *)
Lemma verify_channels_returned channels num_rx iterations buffer_size :
  forall errors result,
    verify_channels channels num_rx iterations buffer_size errors
    = Returned result ->
    exists added,
      result = errors ++ added /\
      (added = [] ->
       Forall (fun channel =>
                 compare_channel channel num_rx iterations buffer_size
                 = Returned tt) channels).
Proof.
  induction channels as [| channel channels IH]; intros errors result Hrun.
  - injection Hrun as <-. exists []. rewrite app_nil_r. split; [reflexivity | constructor].
  - rewrite verify_channels_cons in Hrun.
    destruct (compare_channel channel num_rx iterations buffer_size)
      as [[] | [m | m | |] |] eqn:Hcompare; try discriminate Hrun.
    + destruct (IH errors result Hrun) as (added & Hresult & Hall).
      exists added. split; [exact Hresult |].
      intros Hnone. constructor; [exact Hcompare | exact (Hall Hnone)].
    + destruct (IH _ result Hrun) as (added & Hresult & _).
      exists (Failure m :: added).
      split; [rewrite Hresult, <- app_assoc; reflexivity | discriminate].
Qed.

Lemma verify_channels_all_returned channels num_rx iterations buffer_size errors :
  Forall (fun channel =>
            compare_channel channel num_rx iterations buffer_size = Returned tt)
    channels ->
  verify_channels channels num_rx iterations buffer_size errors = Returned errors.
Proof.
  induction 1 as [| channel channels Hcompare _ IH]; [reflexivity |].
  rewrite verify_channels_cons, Hcompare. exact IH.
Qed.

(** X20: the evaluation at the end of the host loopback run ends with
    exit status 0 exactly when the Aurora block sent no more packets than
    it received, counted no overflow and no CRC error, and the comparison
    of every channel returned without exception. *)
Theorem evaluate_passes_iff (tx rx overflow crc : Z) channels
    num_rx iterations buffer_size :
  evaluate tx rx overflow crc channels num_rx iterations buffer_size
  = Returned 0%Z
  <-> (tx <= rx /\ overflow <= 0 /\ crc <= 0)%Z /\
      Forall (fun channel =>
                compare_channel channel num_rx iterations buffer_size
                = Returned tt) channels.
Proof.
  unfold evaluate. split.
  - intros Hrun.
    destruct (verify_channels channels num_rx iterations buffer_size
                (check_statistics tx rx overflow crc))
      as [result | e |] eqn:Hverify; try discriminate Hrun.
    destruct (verify_channels_returned _ _ _ _ _ _ Hverify)
      as (added & Hresult & Hall).
    destruct result as [| r result]; [| discriminate Hrun].
    symmetry in Hresult. apply app_eq_nil in Hresult as [Hstats Hadded].
    split; [apply check_statistics_clean; exact Hstats | exact (Hall Hadded)].
  - intros [Hstats Hall].
    rewrite (verify_channels_all_returned _ _ _ _ _ Hall).
    rewrite (proj2 (check_statistics_clean tx rx overflow crc) Hstats).
    reflexivity.
Qed.

(** X21: step 9 catches the [AssertionError] of a comparison only: when
    the comparisons of the first channels return or fail with an array
    mismatch and the next one raises [EOFError], that exception escapes
    the evaluation, whatever the counters are and whatever the state of
    the channels that follow, which are not verified. *)
Theorem evaluate_eof_escapes (tx rx overflow crc : Z) before channel after
    num_rx iterations buffer_size m :
  Forall (fun c =>
            compare_channel c num_rx iterations buffer_size = Returned tt \/
            exists m', compare_channel c num_rx iterations buffer_size
                       = Raised (AssertionError m')) before ->
  compare_channel channel num_rx iterations buffer_size = Raised (EOFError m) ->
  evaluate tx rx overflow crc (before ++ channel :: after)
    num_rx iterations buffer_size
  = Raised (EOFError m).
Proof.
  intros Hbefore Heof. unfold evaluate.
  generalize (check_statistics tx rx overflow crc) as errors.
  induction Hbefore as [| c before Hc _ IH]; intros errors.
  - cbn [app]. rewrite verify_channels_cons, Heof. reflexivity.
  - cbn [app]. rewrite verify_channels_cons.
    destruct Hc as [-> | [m' ->]]; apply IH.
Qed.

End EvaluateFacts.

Section EvaluateExamples.

Import Host Scripts.
Local Open Scope nat_scope.

Lemma evaluate_eof_escapes_witness :
  evaluate 5 5 0 0
    ([ (("in0.dat", [(1, 0); (2, 0)]%Z), ("out0.dat", [(1, 0); (9, 9)]%Z)) ]
       ++ (("in1.dat", [(1, 0); (2, 0)]%Z), ("out1.dat", [])) :: [])
    2 1 2
  = Raised (EOFError (ReceivedEOF "out1.dat" 0)).
Proof.
  apply (evaluate_eof_escapes 5 5 0 0
           [ (("in0.dat", [(1, 0); (2, 0)]%Z), ("out0.dat", [(1, 0); (9, 9)]%Z)) ]
           (("in1.dat", [(1, 0); (2, 0)]%Z), ("out1.dat", [])) [] 2 1 2).
  - constructor; [| constructor]. right. eexists. vm_compute. reflexivity.
  - vm_compute. reflexivity.
Defined.

End EvaluateExamples.

(** * What the transmit pump hands to the streamer *)

Section MonadInversion.

Context {W E : Type}.

Lemma bind_returned_inv {A B} (m : M W E A) (k : A -> M W E B) w b w2 :
  (m ≫= k) w = (Returned b, w2) ->
  exists a w1, m w = (Returned a, w1) /\ k a w1 = (Returned b, w2).
Proof.
  unfold mbind, M_bind. destruct (m w) as [[a | e |] w1]; intros Hrun;
    try discriminate Hrun.
  exists a, w1. split; [reflexivity | exact Hrun].
Qed.

End MonadInversion.

Section TransmitContents.

Import Host Scripts.
Local Open Scope nat_scope.

Context {tx_state : Type}.

Implicit Types (f : file) (record : list (list (list sample) * nat)).

Lemma taken_snoc idx record slice transmitted :
  taken idx (record ++ [(slice, transmitted)])
  = taken idx record ++ take transmitted (default [] (slice !! idx)).
Proof.
  unfold taken. rewrite fmap_app, concat_app. cbn [fmap list_fmap concat fst snd].
  rewrite app_nil_r. reflexivity.
Qed.

(** Replacing a file by one of the same content keeps the contents. *)
Lemma contents_insert (fs : list file) idx f f' :
  fs !! idx = Some f -> content f' = content f ->
  content <$> <[idx := f']> fs = content <$> fs.
Proof.
  intros Hf Hcontent. rewrite list_fmap_insert, Hcontent.
  apply list_insert_id. rewrite list_lookup_fmap, Hf. reflexivity.
Qed.

(** What a run of the loop over the channels that does not raise leaves
    behind: the contents of the files, the rows of the channels it has
    passed, and, at the start of the row of each channel it read, what it
    read for it. *)
Lemma read_channels_rows buffer_size (k : nat) :
  forall i (w : tx_world tx_state) bound r w',
    read_channels (seq i k) buffer_size bound w = (Returned r, w') ->
    content <$> tx_files w' = content <$> tx_files w /\
    (forall idx, idx < i ->
       rows (tx_buffer w') !! idx = rows (tx_buffer w) !! idx) /\
    (forall idx f, i <= idx < i + k -> tx_files w !! idx = Some f ->
       exists tail,
         rows (tx_buffer w') !! idx = Some ((fromfile f buffer_size).1 ++ tail)).
Proof.
  induction k as [| k IH]; intros i w bound r w' Hrun.
  - injection Hrun as _ <-.
    split; [reflexivity | split; [reflexivity | intros; lia]].
  - cbn [seq read_channels] in Hrun.
    apply bind_returned_inv in Hrun as (buffer & w1 & Hread & Hrun).
    destruct (tx_files w !! i) as [f |] eqn:Hf.
    2:{ unfold tx_fromfile in Hread.
        erewrite bind_raised in Hread by (unfold tx_file; rewrite Hf; reflexivity).
        discriminate Hread. }
    rewrite (tx_fromfile_run _ _ _ _ Hf) in Hread. injection Hread as <- <-.
    apply bind_returned_inv in Hrun as (len & w1 & Hlen & Hrun).
    assert (w1 = set_tx_file i (fromfile f buffer_size).2 w) as ->.
    { destruct (i =? 0); [injection Hlen as _ <-; reflexivity |].
      destruct bound as [len0 |]; [| discriminate Hlen].
      destruct (_ =? len0); [injection Hlen as _ <-; reflexivity | discriminate Hlen]. }
    apply bind_returned_inv in Hrun as ([] & w2 & Hstore & Hrun).
    unfold tx_store in Hstore. cbn [set_tx_file tx_buffer] in Hstore.
    destruct (rows (tx_buffer w) !! i) as [row |] eqn:Hrow; [| discriminate Hstore].
    injection Hstore as <-.
    pose proof (lookup_lt_Some _ _ _ Hrow) as Hi.
    destruct (IH _ _ _ _ _ Hrun) as (Hcontents & Hbefore & Hread).
    cbn [set_tx_row set_tx_file tx_files tx_buffer rows] in Hcontents, Hbefore, Hread.
    split; [| split].
    + rewrite Hcontents. apply (contents_insert _ _ f); [exact Hf | reflexivity].
    + intros idx Hidx. rewrite Hbefore by lia.
      apply list_lookup_insert_ne. lia.
    + intros idx f0 Hidx Hf0.
      destruct (decide (idx = i)) as [-> | Hne].
      * rewrite Hf in Hf0. injection Hf0 as <-.
        eexists. rewrite Hbefore by lia.
        apply list_lookup_insert_eq. exact Hi.
      * apply Hread; [lia |]. rewrite list_lookup_insert_ne by congruence. exact Hf0.
Qed.

(** The loop that rewinds the files keeps their contents. *)
Lemma seek_loop_contents (k : nat) :
  forall i (w : tx_world tx_state) w',
    for_each (seq i k) tx_seek0 w = (Returned tt, w') ->
    content <$> tx_files w' = content <$> tx_files w.
Proof.
  induction k as [| k IH]; intros i w w' Hrun.
  - injection Hrun as <-. reflexivity.
  - cbn [seq for_each] in Hrun.
    apply bind_returned_inv in Hrun as ([] & w1 & Hseek & Hrun).
    destruct (tx_files w !! i) as [f |] eqn:Hf.
    2:{ unfold tx_seek0 in Hseek.
        erewrite bind_raised in Hseek by (unfold tx_file; rewrite Hf; reflexivity).
        discriminate Hseek. }
    rewrite (tx_seek0_run _ _ _ Hf) in Hseek. injection Hseek as <-.
    rewrite (IH _ _ _ Hrun). cbn [set_tx_file tx_files].
    apply (contents_insert _ _ f); [exact Hf | reflexivity].
Qed.

(** The loop over the channels calls no [send]. *)
Lemma read_channels_frame buffer_size (idxs : list nat) :
  forall (w : tx_world tx_state) bound r w',
    read_channels idxs buffer_size bound w = (Returned r, w') ->
    tx_streamer w' = tx_streamer w /\ tx_sends w' = tx_sends w.
Proof.
  induction idxs as [| i idxs IH]; intros w bound r w' Hrun.
  - injection Hrun as _ <-. split; reflexivity.
  - cbn [read_channels] in Hrun.
    apply bind_returned_inv in Hrun as (buffer & w1 & Hread & Hrun).
    apply bind_returned_inv in Hrun as (len & w2 & Hlen & Hrun).
    apply bind_returned_inv in Hrun as ([] & w3 & Hstore & Hrun).
    destruct (IH _ _ _ _ Hrun) as [-> ->].
    assert (H1 : tx_streamer w1 = tx_streamer w /\ tx_sends w1 = tx_sends w).
    { unfold tx_fromfile in Hread.
      apply bind_returned_inv in Hread as (f & w0 & Hfile & Hread).
      unfold tx_file in Hfile.
      destruct (tx_files w !! i); [| discriminate Hfile].
      injection Hfile as -> <-.
      destruct (fromfile f buffer_size) as [data f'].
      injection Hread as _ <-. split; reflexivity. }
    assert (H2 : w2 = w1).
    { destruct (i =? 0); [injection Hlen as _ <-; reflexivity |].
      destruct bound as [len0 |]; [| discriminate Hlen].
      destruct (_ =? len0); [injection Hlen as _ <-; reflexivity | discriminate Hlen]. }
    subst w2. unfold tx_store in Hstore.
    destruct (rows (tx_buffer w1) !! i); [| discriminate Hstore].
    injection Hstore as <-. exact H1.
Qed.

End TransmitContents.

Section TransmitData.

Import Host Scripts.
Local Open Scope nat_scope.

Context {tx_state : Type}.
Variable send : tx_state -> list (list sample) -> nat * tx_state.

Implicit Types (f : file) (record : list (list (list sample) * nat)).

(** A recording streamer takes what the streamer it wraps takes. *)
Lemma recording_send_takes_some :
  send_takes_some send -> send_takes_some (recording_send send).
Proof. intros Hsend st slice Hoffer. exact (Hsend st.1 slice Hoffer). Qed.

(** The send loop gets what is left of the chunk to the streamer, in
    order. *)
Lemma send_loop_taken num_chans buffer_size (fuel : nat) :
  0 < num_chans -> send_takes_some send ->
  forall len cur num_tx (w : tx_world _) r w',
    shape (tx_buffer w) = (num_chans, buffer_size) ->
    ndarray_wf (tx_buffer w) ->
    len <= buffer_size -> cur <= len ->
    send_loop (recording_send send) fuel len cur num_tx w = (Returned r, w') ->
    forall idx row,
      rows (tx_buffer w) !! idx = Some row ->
      taken idx (tx_streamer w').2
      = taken idx (tx_streamer w).2 ++ drop cur (take len row).
Proof.
  intros Hchans Hsend.
  induction fuel as [| fuel IH];
    intros len cur num_tx w r w' Hshape Hwf Hlen Hcur Hrun idx row Hrow;
    [discriminate Hrun |].
  cbn [send_loop] in Hrun.
  destruct (cur <? len) eqn:Hlt.
  - apply Nat.ltb_lt in Hlt.
    apply bind_returned_inv in Hrun as (transmitted & w1 & Hcall & Hrun).
    unfold tx_send, recording_send in Hcall. cbn [fst snd] in Hcall.
    injection Hcall as <- <-.
    pose proof (nsamps_columns num_chans buffer_size Hchans w cur len
                  Hshape Hwf Hlen) as Hoffer.
    pose proof (Hsend (tx_streamer w).1 (columns (tx_buffer w) cur len)
                  ltac:(lia)) as Htaken.
    set (transmitted := (send (tx_streamer w).1 (columns (tx_buffer w) cur len)).1)
      in *.
    assert (Hle : cur + transmitted <= len) by lia.
    pose proof (fun Hs Hw => IH _ _ _ _ _ _ Hs Hw Hlen Hle Hrun idx row) as Hrest.
    cbn [tx_buffer] in Hrest. rewrite (Hrest Hshape Hwf Hrow).
    cbn [tx_streamer snd]. rewrite taken_snoc.
    unfold columns. rewrite list_lookup_fmap, Hrow. cbn [fmap option_fmap option_map default].
    rewrite <- app_assoc. f_equal.
    rewrite <- (take_drop transmitted (drop cur (take len row))) at 2.
    rewrite drop_drop. reflexivity.
  - apply Nat.ltb_ge in Hlt. injection Hrun as _ <-.
    rewrite drop_ge by (rewrite length_take; lia).
    rewrite app_nil_r. reflexivity.
Qed.

(** A chunk of at most [buffer_size] samples and what follows it make up
    what was left of the file. *)
Lemma chunk_then_rest (c : list sample) buffer_size size p :
  length c = size -> p <= size ->
  take buffer_size (drop p c) ++ drop (p + min buffer_size (size - p)) c
  = drop p c.
Proof.
  intros Hc Hp.
  rewrite <- (take_drop (min buffer_size (size - p)) (drop p c)) at 2.
  rewrite drop_drop. f_equal.
  destruct (le_lt_dec buffer_size (size - p)) as [Hle | Hgt].
  - rewrite Nat.min_l by exact Hle. reflexivity.
  - rewrite Nat.min_r by lia.
    rewrite !take_ge by (rewrite length_drop; lia). reflexivity.
Qed.

(** One pass over the files: from the cursor [p] on, the content of every
    file reaches the streamer, in order. *)
Lemma chunk_loop_taken num_chans buffer_size size budget (fuel : nat) :
  0 < num_chans -> send_takes_some send ->
  0 < buffer_size -> buffer_size < budget ->
  forall p num_tx (w : tx_world _) r w',
    p <= size ->
    tx_at num_chans buffer_size size p w ->
    chunk_loop (recording_send send) budget fuel num_chans buffer_size num_tx w
    = (Returned r, w') ->
    content <$> tx_files w' = content <$> tx_files w /\
    forall idx c,
      (content <$> tx_files w) !! idx = Some c ->
      taken idx (tx_streamer w').2 = taken idx (tx_streamer w).2 ++ drop p c.
Proof.
  intros Hchans Hsend Hbs Hbudget.
  induction fuel as [| fuel IH]; intros p num_tx w r w' Hp Hat Hrun;
    [discriminate Hrun |].
  cbn [chunk_loop] in Hrun.
  apply bind_returned_inv in Hrun as (bound & w1 & Hread & Hrun).
  set (len := min buffer_size (size - p)).
  destruct (read_channels_equal num_chans buffer_size size Hchans p num_chans
              0 w None)
    as (w1' & Hread' & Hat1 & _ & Hstreamer1); [lia | | left; reflexivity |].
  { destruct Hat as (Hshape & Hwf & Hlen & Hfiles).
    repeat (split; [assumption |]).
    rewrite <- Hlen in Hfiles. apply files_upto_none. exact Hfiles. }
  fold len in Hread', Hat1.
  assert (Hbound : match num_chans with O => None | S _ => Some len end
                   = Some len)
    by (generalize Hchans; destruct num_chans; [lia | reflexivity]).
  rewrite Hbound, Hread in Hread'. injection Hread' as -> <-.
  destruct (read_channels_rows _ _ _ _ _ _ _ Hread) as (Hcontents & _ & Hrows).
  assert (Hfile : forall idx c,
             (content <$> tx_files w) !! idx = Some c ->
             length c = size /\
             exists tail,
               rows (tx_buffer w1) !! idx
               = Some (take buffer_size (drop p c) ++ tail)).
  { intros idx c Hc. apply list_lookup_fmap_Some_1 in Hc as (f & -> & Hf).
    destruct Hat as (_ & _ & Hlen & Hfiles).
    pose proof (lookup_lt_Some _ _ _ Hf) as Hidx.
    destruct (Hfiles idx f Hf) as (Hsize & Hpos & _).
    split; [exact Hsize |].
    destruct (Hrows idx f ltac:(lia) Hf) as [tail Hrow].
    exists tail. rewrite Hrow. unfold fromfile. cbn [fst].
    rewrite (Hpos ltac:(lia)). reflexivity. }
  cbn beta iota in Hrun.
  destruct (len =? 0) eqn:Hlen0.
  - apply Nat.eqb_eq in Hlen0. injection Hrun as _ <-.
    split; [exact Hcontents |].
    intros idx c Hc. destruct (Hfile idx c Hc) as (Hsize & _).
    rewrite Hstreamer1, drop_ge by lia. rewrite app_nil_r. reflexivity.
  - apply Nat.eqb_neq in Hlen0.
    apply bind_returned_inv in Hrun as (num_tx' & w2 & Hsent & Hrun).
    destruct Hat1 as (Hshape & Hwf & Hrest).
    destruct (send_loop_drains (recording_send send) num_chans buffer_size
                Hchans (recording_send_takes_some Hsend)
                budget len 0 num_tx w1 Hshape Hwf)
      as (w2' & new & Hsent' & Hfiles2 & Hbuffer2 & _); [lia | lia | lia |].
    rewrite Hsent in Hsent'. injection Hsent' as _ <-.
    assert (Hat2 : tx_at num_chans buffer_size size (p + len) w2).
    { apply (tx_inv_frame _ _ _ _ _ _ w1); [exact Hfiles2 | exact Hbuffer2 |].
      exact (conj Hshape (conj Hwf Hrest)). }
    destruct (IH (p + len) num_tx' w2 r w' ltac:(lia) Hat2 Hrun)
      as (Hcontents' & Htaken').
    rewrite Hfiles2, Hcontents in Hcontents', Htaken'.
    split; [exact Hcontents' |].
    intros idx c Hc. destruct (Hfile idx c Hc) as (Hsize & tail & Hrow).
    rewrite (Htaken' idx c Hc).
    rewrite (send_loop_taken num_chans buffer_size budget Hchans Hsend
               len 0 num_tx w1 num_tx' w2 Hshape Hwf ltac:(lia) ltac:(lia)
               Hsent idx _ Hrow).
    rewrite Hstreamer1, <- app_assoc. f_equal.
    rewrite drop_0.
    assert (Hchunk : length (take buffer_size (drop p c)) = len)
      by (rewrite length_take, length_drop, Hsize; reflexivity).
    rewrite <- Hchunk at 1. rewrite take_app_length.
    apply chunk_then_rest; assumption.
Qed.

(** The outer loop: every remaining iteration gets the content of every
    file to the streamer once more. *)
Lemma iteration_loop_taken num_chans buffer_size size budget iterations
    (fuel : nat) :
  0 < num_chans -> send_takes_some send ->
  0 < buffer_size -> buffer_size < budget -> size < budget ->
  forall iteration num_tx (w : tx_world _) r w',
    tx_inv num_chans buffer_size size 0 0 (fun _ => True) w ->
    iteration_loop (recording_send send) budget fuel num_chans buffer_size
      iterations iteration num_tx w
    = (Returned r, w') ->
    forall idx c,
      (content <$> tx_files w) !! idx = Some c ->
      taken idx (tx_streamer w').2
      = taken idx (tx_streamer w).2
          ++ concat (replicate (iterations - iteration) c).
Proof.
  intros Hchans Hsend Hbs Hbudget Hsize.
  induction fuel as [| fuel IH]; intros iteration num_tx w r w' Hinv Hrun idx c Hc;
    [discriminate Hrun |].
  cbn [iteration_loop] in Hrun.
  destruct (iteration <? iterations) eqn:Hlt.
  - apply Nat.ltb_lt in Hlt.
    apply bind_returned_inv in Hrun as ([] & w1 & Hseek & Hrun).
    apply bind_returned_inv in Hrun as (num_tx' & w2 & Hchunk & Hrun).
    destruct (seek_loop_run num_chans buffer_size size Hchans num_chans 0 w)
      as (w1' & Hseek' & Hat1 & _ & Hstreamer1); [reflexivity | exact Hinv |].
    rewrite Hseek in Hseek'. injection Hseek' as <-.
    pose proof (seek_loop_contents _ _ _ _ Hseek) as Hcontents1.
    destruct (chunk_loop_drains (recording_send send) num_chans buffer_size size
                Hchans (recording_send_takes_some Hsend)
                budget budget 0 num_tx w1)
      as (w2' & new & Hchunk' & Hat2 & _); [lia | lia | lia | lia | exact Hat1 |].
    rewrite Hchunk in Hchunk'. injection Hchunk' as _ <-.
    destruct (chunk_loop_taken num_chans buffer_size size budget budget
                Hchans Hsend Hbs Hbudget 0 num_tx w1 num_tx' w2
                ltac:(lia) Hat1 Hchunk) as (Hcontents2 & Htaken2).
    rewrite Hcontents1 in Hcontents2, Htaken2.
    rewrite (IH (iteration + 1) num_tx' w2 r w'
               (tx_at_rewindable _ _ _ _ _ Hat2) Hrun idx c)
      by (rewrite Hcontents2; exact Hc).
    rewrite (Htaken2 idx c Hc), Hstreamer1, drop_0, <- app_assoc.
    replace (iterations - iteration) with (S (iterations - (iteration + 1)))
      by lia.
    reflexivity.
  - apply Nat.ltb_ge in Hlt. injection Hrun as _ <-.
    replace (iterations - iteration) with 0 by lia.
    cbn [replicate concat]. rewrite app_nil_r. reflexivity.
Qed.

(** The samples taken over two stretches of calls. *)
Lemma taken_app idx record record' :
  taken idx (record ++ record') = taken idx record ++ taken idx record'.
Proof. unfold taken. rewrite fmap_app, concat_app. reflexivity. Qed.

(** The record of a recording streamer grows by the slices the send loop
    hands over, one entry per call. *)
Lemma send_loop_recorded (fuel : nat) :
  forall len cur num_tx (w : tx_world _) r w',
    send_loop (recording_send send) fuel len cur num_tx w = (Returned r, w') ->
    exists calls,
      (tx_streamer w').2 = (tx_streamer w).2 ++ calls /\
      tx_sends w' = tx_sends w ++ calls.*1.
Proof.
  induction fuel as [| fuel IH]; intros len cur num_tx w r w' Hrun;
    [discriminate Hrun |].
  cbn [send_loop] in Hrun.
  destruct (cur <? len).
  - apply bind_returned_inv in Hrun as (transmitted & w1 & Hcall & Hrun).
    unfold tx_send, recording_send in Hcall. cbn [fst snd] in Hcall.
    injection Hcall as <- <-.
    destruct (IH _ _ _ _ _ _ Hrun) as (calls & Hrecord & Hsends).
    cbn [tx_streamer tx_sends snd] in Hrecord, Hsends.
    eexists (_ :: calls).
    rewrite Hrecord, Hsends, <- !app_assoc. split; reflexivity.
  - injection Hrun as _ <-. exists []. rewrite !app_nil_r. split; reflexivity.
Qed.

(** The same for one pass over the files. *)
Lemma chunk_loop_recorded budget num_chans buffer_size (fuel : nat) :
  forall num_tx (w : tx_world _) r w',
    chunk_loop (recording_send send) budget fuel num_chans buffer_size num_tx w
    = (Returned r, w') ->
    exists calls,
      (tx_streamer w').2 = (tx_streamer w).2 ++ calls /\
      tx_sends w' = tx_sends w ++ calls.*1.
Proof.
  induction fuel as [| fuel IH]; intros num_tx w r w' Hrun;
    [discriminate Hrun |].
  cbn [chunk_loop] in Hrun.
  apply bind_returned_inv in Hrun as (bound & w1 & Hread & Hrun).
  destruct (read_channels_frame _ _ _ _ _ _ Hread) as [Hstreamer1 Hsends1].
  destruct bound as [len |]; [| discriminate Hrun].
  destruct (len =? 0).
  - injection Hrun as _ <-. exists [].
    rewrite Hstreamer1, Hsends1, !app_nil_r. split; reflexivity.
  - apply bind_returned_inv in Hrun as (num_tx' & w2 & Hsent & Hrun).
    destruct (send_loop_recorded _ _ _ _ _ _ _ Hsent) as (calls1 & Hrecord1 & Hsent1).
    destruct (IH _ _ _ _ Hrun) as (calls2 & Hrecord2 & Hsent2).
    exists (calls1 ++ calls2).
    rewrite Hrecord2, Hrecord1, Hsent2, Hsent1, Hstreamer1, Hsends1.
    rewrite fmap_app, <- !app_assoc. split; reflexivity.
Qed.

(** C5: with one iteration, a buffer of [B] samples and files of [S]
    samples for every channel, [0 < B < S], and a streamer whose [send]
    takes between one sample and all it is offered, the pump returns [S]
    (given fuel for more than [S] rounds of each loop) and the whole source
    is transmitted.  The streamer is any such [send], made to record its
    calls: the slice it was handed and the count it returned.  Every file
    is read to its end; the calls are those of the pump, in order, and
    there are at least [ceil(S / B)] of them; and over these calls the
    samples the streamer took for a channel, the first [transmitted] of
    the channel's row of every slice, are the content of that channel's
    file, from its first sample to its last: a [send] that takes only part
    of a slice is followed by one for the rest. *)
Theorem tx_function_transmits_source (w : tx_world _) S B fuel :
  send_takes_some send ->
  0 < length (tx_files w) ->
  shape (tx_buffer w) = (length (tx_files w), B) ->
  ndarray_wf (tx_buffer w) ->
  Forall (fun f => length (content f) = S) (tx_files w) ->
  0 < B < S -> S < fuel ->
  exists w' calls,
    tx_function (recording_send send) fuel 1 w = (Returned S, w') /\
    Forall (fun f => length (content f) = S /\ pos f = S) (tx_files w') /\
    (tx_streamer w').2 = (tx_streamer w).2 ++ calls /\
    tx_sends w' = tx_sends w ++ calls.*1 /\
    ceil_div S B <= length calls /\
    forall idx f,
      tx_files w !! idx = Some f -> taken idx calls = content f.
Proof.
  intros Hsend Hchans Hshape Hwf Hsizes [HB HBS] Hfuel.
  set (num_chans := length (tx_files w)) in *.
  destruct (seek_loop_run num_chans B S Hchans num_chans 0 w)
    as (w1 & Hseek & Hat1 & Hsends1 & Hstreamer1); [reflexivity | |].
  { split; [exact Hshape |]. split; [exact Hwf |]. split; [reflexivity |].
    intros idx f Hf. split; [exact (Forall_lookup_1 _ _ _ _ Hsizes Hf) |].
    split; [lia | trivial]. }
  destruct (chunk_loop_drains (recording_send send) num_chans B S Hchans
              (recording_send_takes_some Hsend) fuel fuel 0 0 w1)
    as (w2 & new & Hrun & Hat2 & Hsends2 & Hcount);
    [lia | lia | lia | lia | exact Hat1 |].
  destruct (chunk_loop_recorded _ _ _ _ _ _ _ _ Hrun) as (calls & Hrecord & Hcalls).
  rewrite Hsends2 in Hcalls. apply app_inv_head in Hcalls. subst new.
  rewrite length_fmap in Hcount.
  destruct (chunk_loop_taken num_chans B S fuel fuel Hchans Hsend HB ltac:(lia)
              0 0 w1 _ w2 ltac:(lia) Hat1 Hrun) as (_ & Htaken).
  rewrite (seek_loop_contents _ _ _ _ Hseek) in Htaken.
  exists w2, calls.
  split; [| split; [| split; [| split; [| split]]]].
  - unfold tx_function. rewrite Hshape. cbn [fst snd].
    destruct fuel as [| [| fuel']]; [lia | lia |].
    cbn [iteration_loop Nat.ltb Nat.leb].
    erewrite bind_returned by exact Hseek.
    erewrite bind_returned by exact Hrun.
    cbn [Nat.add Nat.ltb Nat.leb]. unfold mret, M_ret. do 2 f_equal. lia.
  - destruct Hat2 as (_ & _ & Hlen & Hfiles).
    apply Forall_lookup_2. intros idx f Hf.
    destruct (Hfiles idx f Hf) as (Hs & Hd & _).
    split; [exact Hs |]. apply Hd.
    rewrite <- Hlen. exact (lookup_lt_Some _ _ _ Hf).
  - rewrite Hrecord, Hstreamer1. reflexivity.
  - rewrite Hsends2, Hsends1. reflexivity.
  - unfold ceil_div. apply Nat.lt_succ_r.
    apply Nat.Div0.div_lt_upper_bound. lia.
  - intros idx f Hf.
    specialize (Htaken idx (content f)
                  ltac:(rewrite list_lookup_fmap, Hf; reflexivity)).
    rewrite Hrecord, taken_app, drop_0 in Htaken.
    apply app_inv_head in Htaken. exact Htaken.
Qed.

(** X22: what reaches the streamer: under the conditions of repeated
    playback (files of [S] samples for every channel, a buffer of [B > 0]
    samples, a streamer whose [send] takes between one sample and all it is
    offered), the samples the streamer takes for a channel over the whole
    run, the first [transmitted] of every slice it was handed, are the
    content of that channel's file, [iterations] times over and in order;
    the pump neither drops nor repeats a sample when a [send] takes only
    part of a slice. *)
Theorem tx_function_sends_file_content (w : tx_world _) S B fuel iterations :
  send_takes_some send ->
  0 < length (tx_files w) ->
  shape (tx_buffer w) = (length (tx_files w), B) ->
  ndarray_wf (tx_buffer w) ->
  Forall (fun f => length (content f) = S) (tx_files w) ->
  0 < B -> B < fuel -> S < fuel -> iterations < fuel ->
  exists w',
    tx_function (recording_send send) fuel iterations w
    = (Returned (iterations * S), w') /\
    forall idx f,
      tx_files w !! idx = Some f ->
      taken idx (tx_streamer w').2
      = taken idx (tx_streamer w).2 ++ concat (replicate iterations (content f)).
Proof.
  intros Hsend Hchans Hshape Hwf Hsizes HB HBfuel HSfuel Hfuel.
  assert (Hinv : tx_inv (length (tx_files w)) B S 0 0 (fun _ => True) w).
  { split; [exact Hshape |]. split; [exact Hwf |]. split; [reflexivity |].
    intros idx f Hf. split; [exact (Forall_lookup_1 _ _ _ _ Hsizes Hf) |].
    split; [lia | trivial]. }
  destruct (iteration_loop_drains (recording_send send) (length (tx_files w))
              B S fuel iterations fuel
              Hchans (recording_send_takes_some Hsend) HB HBfuel HSfuel 0 0 w)
    as (w' & new & Hrun & _); [lia | lia | exact Hinv |].
  exists w'. rewrite Nat.sub_0_r in Hrun.
  split; [unfold tx_function; rewrite Hshape; cbn [fst snd]; exact Hrun |].
  intros idx f Hf.
  rewrite (iteration_loop_taken (length (tx_files w)) B S fuel iterations fuel
             Hchans Hsend HB HBfuel HSfuel 0 0 w _ w' Hinv Hrun idx (content f))
    by (rewrite list_lookup_fmap, Hf; reflexivity).
  rewrite Nat.sub_0_r. reflexivity.
Qed.

End TransmitData.

Section TransmitDataExamples.

Import Host Scripts.
Local Open Scope nat_scope.

Lemma tx_function_transmits_source_witness :
  exists w' calls,
    tx_function (recording_send (limited_send 1)) 6 1 tx_world_recorded
    = (Returned 5, w') /\
    Forall (fun f => length (content f) = 5 /\ pos f = 5) (tx_files w') /\
    (tx_streamer w').2 = (tx_streamer tx_world_recorded).2 ++ calls /\
    tx_sends w' = tx_sends tx_world_recorded ++ calls.*1 /\
    ceil_div 5 2 <= length calls /\
    forall idx f,
      tx_files tx_world_recorded !! idx = Some f -> taken idx calls = content f.
Proof.
  apply (tx_function_transmits_source (limited_send 1) tx_world_recorded 5 2 6).
  - exact (limited_send_takes_some 1 ltac:(lia)).
  - simpl. lia.
  - reflexivity.
  - split; [reflexivity |]. simpl. repeat constructor.
  - simpl. repeat constructor.
  - lia.
  - lia.
Defined.

(** The same run, evaluated: the five calls of a streamer that takes one
    sample at a time, with the slice each was handed and what it took. *)
Example tx_function_5_2_calls :
  (tx_streamer
     (tx_function (recording_send (limited_send 1)) 6 1 tx_world_recorded).2).2
  = [ ([[(1, 0); (2, 0)]%Z], 1); ([[(2, 0)]%Z], 1);
      ([[(3, 0); (4, 0)]%Z], 1); ([[(4, 0)]%Z], 1);
      ([[(5, 0)]%Z], 1) ].
Proof. vm_compute. reflexivity. Qed.

Lemma tx_function_sends_file_content_witness :
  exists w',
    tx_function (recording_send (limited_send 1)) 6 3 tx_world_recorded
    = (Returned (3 * 5), w') /\
    forall idx f,
      tx_files tx_world_recorded !! idx = Some f ->
      taken idx (tx_streamer w').2
      = taken idx (tx_streamer tx_world_recorded).2
          ++ concat (replicate 3 (content f)).
Proof.
  apply (tx_function_sends_file_content (limited_send 1) tx_world_recorded
           5 2 6 3).
  - exact (limited_send_takes_some 1 ltac:(lia)).
  - simpl. lia.
  - reflexivity.
  - split; [reflexivity |]. simpl. repeat constructor.
  - simpl. repeat constructor.
  - lia.
  - lia.
  - lia.
  - lia.
Defined.

(** The streamer that takes one sample per call sees the five samples of
    the file twice when two iterations are asked for. *)
Example recorded_samples_of_two_iterations :
  taken 0 (tx_streamer
             (tx_function (recording_send (limited_send 1)) 6 2
                tx_world_recorded).2).2
  = [(1, 0); (2, 0); (3, 0); (4, 0); (5, 0);
     (1, 0); (2, 0); (3, 0); (4, 0); (5, 0)]%Z.
Proof. vm_compute. reflexivity. Qed.

End TransmitDataExamples.

(** * What the receive pump writes to the files *)

Section ReceiveContents.

Import Host Scripts.
Local Open Scope nat_scope.

Context {rx_state : Type}.

Implicit Types (f : file).

(** Writing at the end of a file appends. *)
Lemma tofile_at_end data f :
  pos f = length (content f) ->
  content (tofile data f) = content f ++ data /\
  pos (tofile data f) = length (content (tofile data f)).
Proof.
  intros Hpos. unfold tofile. cbn [content pos].
  rewrite Hpos, take_ge, drop_ge, app_nil_r by lia.
  split; [reflexivity |]. rewrite length_app. reflexivity.
Qed.

(** What a run of the loop over the channels that does not raise has done:
    the file of every channel it passed got the first [received] samples of
    that channel's row, the others were left alone. *)
Lemma tofile_loop_files received (k : nat) :
  forall i (w w' : rx_world rx_state),
    for_each (seq i k) (rx_tofile received) w = (Returned tt, w') ->
    rx_buffer w' = rx_buffer w /\ rx_streamer w' = rx_streamer w /\
    length (rx_files w') = length (rx_files w) /\
    forall idx f,
      rx_files w !! idx = Some f ->
      (i <= idx < i + k ->
       exists row,
         rows (rx_buffer w) !! idx = Some row /\
         rx_files w' !! idx = Some (tofile (take received row) f)) /\
      (~ i <= idx < i + k -> rx_files w' !! idx = Some f).
Proof.
  induction k as [| k IH]; intros i w w' Hrun.
  - injection Hrun as <-.
    repeat (split; [reflexivity |]).
    intros idx f Hf. split; [lia | intros _; exact Hf].
  - cbn [seq for_each] in Hrun.
    apply bind_returned_inv in Hrun as ([] & w1 & Hwrite & Hrun).
    unfold rx_tofile in Hwrite.
    destruct (rows (rx_buffer w) !! i) as [row |] eqn:Hrow; [| discriminate Hwrite].
    destruct (rx_files w !! i) as [g |] eqn:Hg; [| discriminate Hwrite].
    injection Hwrite as <-.
    destruct (IH _ _ _ Hrun) as (Hbuffer & Hstreamer & Hlen & Hfiles).
    cbn [rx_buffer rx_streamer rx_files] in Hbuffer, Hstreamer, Hlen, Hfiles.
    rewrite length_insert in Hlen.
    repeat (split; [assumption |]).
    intros idx f Hf.
    pose proof (lookup_lt_Some _ _ _ Hg) as Hi.
    destruct (decide (idx = i)) as [-> | Hne].
    + rewrite Hg in Hf. injection Hf as <-.
      split; [| lia]. intros _. exists row. split; [exact Hrow |].
      apply (Hfiles i); [apply list_lookup_insert_eq; exact Hi | lia].
    + destruct (Hfiles idx f) as [Hin Hout];
        [rewrite list_lookup_insert_ne by congruence; exact Hf |].
      split; [intros Hidx; apply Hin; lia | intros Hidx; apply Hout; lia].
Qed.

End ReceiveContents.

Section ReceiveData.

Import Host Scripts.
Local Open Scope nat_scope.

Context {rx_state : Type}.
Variable recv : rx_state -> ndarray -> (ndarray * RXMetadata * nat) * rx_state.
Variable error_code_name : RXMetadataErrorCode -> string.

Implicit Types (f : file) (record : list (list (list sample) * nat)).

(** The receive loop, however it comes to return: the count it returns has
    grown by what the [recv] calls reported, and every channel's file by
    the samples they delivered for it. *)
Lemma rx_loop_record num_chans num_samples (fuel : nat) :
  forall num_rx reported (w : rx_world _) n w',
    Forall (fun f => pos f = length (content f)) (rx_files w) ->
    rx_loop (recording_recv recv) error_code_name fuel num_chans num_samples
      num_rx reported w
    = (Returned n, w') ->
    exists new,
      (rx_streamer w').2 = (rx_streamer w).2 ++ new /\
      n = num_rx + sum_list (snd <$> new) /\
      forall idx f,
        idx < num_chans -> rx_files w !! idx = Some f ->
        exists f',
          rx_files w' !! idx = Some f' /\
          content f' = content f ++ taken idx new.
Proof.
  induction fuel as [| fuel IH]; intros num_rx reported w n w' Heof Hrun;
    [discriminate Hrun |].
  cbn [rx_loop] in Hrun.
  destruct (num_rx <? num_samples) eqn:Hlt.
  2:{ injection Hrun as <- <-. exists [].
      rewrite app_nil_r. split; [reflexivity |]. split; [cbn; lia |].
      intros idx f _ Hf. exists f. rewrite app_nil_r. split; [exact Hf | reflexivity]. }
  apply bind_returned_inv in Hrun as ([received rx_md] & w1 & Hrecv & Hrun).
  unfold rx_recv, recording_recv in Hrecv.
  destruct (recv (rx_streamer w).1 (rx_buffer w))
    as [[[buffer rx_md1] received1] st] eqn:Hcall.
  cbn [fst snd] in Hrecv. injection Hrecv as -> -> <-.
  cbn beta iota in Hrun.
  apply bind_returned_inv in Hrun as ([] & w2 & Hwrite & Hrun).
  destruct (tofile_loop_files _ _ _ _ _ Hwrite)
    as (Hbuffer2 & Hstreamer2 & Hlen2 & Hfiles2).
  cbn [rx_buffer rx_streamer rx_files] in Hbuffer2, Hstreamer2, Hlen2, Hfiles2.
  set (entry := (rows buffer, received)) in *.
  assert (Hwritten : forall idx f,
             idx < num_chans -> rx_files w !! idx = Some f ->
             exists f2,
               rx_files w2 !! idx = Some f2 /\
               content f2 = content f ++ taken idx [entry]).
  { intros idx f Hidx Hf.
    destruct (proj1 (Hfiles2 idx f Hf) ltac:(lia)) as (row & Hrow & Hf2).
    exists (tofile (take received row) f). split; [exact Hf2 |].
    rewrite (proj1 (tofile_at_end _ f (Forall_lookup_1 _ _ _ _ Heof Hf))).
    unfold taken, entry. cbn [fmap list_fmap concat fst snd].
    rewrite Hrow, app_nil_r. reflexivity. }
  assert (Heof2 : Forall (fun f => pos f = length (content f)) (rx_files w2)).
  { apply Forall_lookup_2. intros idx f2 Hf2.
    destruct (lookup_lt_is_Some_2 (rx_files w) idx) as [f Hf];
      [rewrite <- Hlen2; exact (lookup_lt_Some _ _ _ Hf2) |].
    pose proof (Forall_lookup_1 _ _ _ _ Heof Hf) as Hend.
    destruct (Hfiles2 idx f Hf) as [Hin Hout].
    destruct (decide (0 <= idx < 0 + num_chans)) as [Hidx | Hidx].
    - destruct (Hin Hidx) as (row & _ & Hf2'). rewrite Hf2 in Hf2'.
      injection Hf2' as ->. exact (proj2 (tofile_at_end _ f Hend)).
    - rewrite (Hout Hidx) in Hf2. injection Hf2 as <-. exact Hend. }
  assert (Hone : exists new,
             (rx_streamer w2).2 = (rx_streamer w).2 ++ new /\
             num_rx + received = num_rx + sum_list (snd <$> new) /\
             forall idx f,
               idx < num_chans -> rx_files w !! idx = Some f ->
               exists f',
                 rx_files w2 !! idx = Some f' /\
                 content f' = content f ++ taken idx new).
  { exists [entry]. rewrite Hstreamer2.
    split; [reflexivity |]. split; [cbn; lia | exact Hwritten]. }
  destruct (bool_decide (error_code rx_md = timeout)).
  { injection Hrun as <- <-. exact Hone. }
  apply bind_returned_inv in Hrun as (reported' & w3 & Hreport & Hrun).
  assert (Hframe : rx_files w3 = rx_files w2 /\ rx_streamer w3 = rx_streamer w2).
  { destruct (bool_decide (error_code rx_md = overflow)), (negb reported);
      injection Hreport as _ <-; split; reflexivity. }
  destruct Hframe as [Hfiles3 Hstreamer3].
  destruct (bool_decide (error_code rx_md <> none)).
  { injection Hrun as <- <-. cbn [rx_files rx_streamer].
    rewrite Hfiles3, Hstreamer3. exact Hone. }
  rewrite <- Hfiles3 in Heof2.
  destruct (IH _ _ _ _ _ Heof2 Hrun) as (new & Hrecord & Hn & Hfiles).
  exists (entry :: new).
  split; [rewrite Hrecord, Hstreamer3, Hstreamer2; cbn [snd];
          rewrite <- app_assoc; reflexivity |].
  split; [rewrite Hn, fmap_cons; unfold entry;
          cbn [sum_list sum_list_with snd]; unfold id; lia |].
  intros idx f Hidx Hf.
  destruct (Hwritten idx f Hidx Hf) as (f2 & Hf2 & Hcontent2).
  rewrite <- Hfiles3 in Hf2.
  destruct (Hfiles idx f2 Hidx Hf2) as (f' & Hf' & Hcontent').
  exists f'. split; [exact Hf' |].
  rewrite Hcontent', Hcontent2, <- app_assoc. f_equal.
  unfold taken. rewrite !fmap_cons. cbn [concat fmap list_fmap].
  rewrite app_nil_r. reflexivity.
Qed.

(** X23: what reaches the files: when the files are positioned at their
    ends and the receive pump returns, however its loop ended (enough
    samples, a timeout, an error indication), the count it returns is the
    sum of the counts the [recv] calls reported, and the file of every
    channel of the buffer holds its former content followed by the first
    [received] samples of that channel's buffer row of every [recv] call,
    in the order of the calls: nothing the transport delivered is dropped,
    reordered or written twice. *)
Theorem rx_function_writes_what_arrived (w : rx_world _) fuel num_samples n w' :
  Forall (fun f => pos f = length (content f)) (rx_files w) ->
  rx_function (recording_recv recv) error_code_name fuel num_samples w
  = (Returned n, w') ->
  exists new,
    (rx_streamer w').2 = (rx_streamer w).2 ++ new /\
    n = sum_list (snd <$> new) /\
    forall idx f,
      idx < (shape (rx_buffer w)).1 -> rx_files w !! idx = Some f ->
      exists f',
        rx_files w' !! idx = Some f' /\
        content f' = content f ++ taken idx new.
Proof.
  intros Heof Hrun. unfold rx_function in Hrun.
  destruct (rx_loop_record _ _ _ _ _ _ _ _ Heof Hrun) as (new & Hrecord & Hn & Hfiles).
  exists new. split; [exact Hrecord |]. split; [exact Hn | exact Hfiles].
Qed.

End ReceiveData.

Section ReceiveDataExamples.

Import Host Scripts.
Local Open Scope nat_scope.

Lemma rx_function_writes_what_arrived_witness :
  exists new,
    (rx_streamer
       (rx_function (recording_recv (numbered_recv 3)) scripted_name 8 7
          rx_world_recorded).2).2
    = (rx_streamer rx_world_recorded).2 ++ new /\
    9 = sum_list (snd <$> new) /\
    forall idx f,
      idx < (shape (rx_buffer rx_world_recorded)).1 ->
      rx_files rx_world_recorded !! idx = Some f ->
      exists f',
        rx_files
          (rx_function (recording_recv (numbered_recv 3)) scripted_name 8 7
             rx_world_recorded).2 !! idx = Some f' /\
        content f' = content f ++ taken idx new.
Proof.
  apply (rx_function_writes_what_arrived (numbered_recv 3) scripted_name
           rx_world_recorded 8 7 9).
  - simpl. repeat constructor.
  - vm_compute. reflexivity.
Defined.

(** Seven samples asked for, three per call: the file gets the nine samples
    of three calls. *)
Example received_samples_of_three_calls :
  content <$> rx_files
    (rx_function (recording_recv (numbered_recv 3)) scripted_name 8 7
       rx_world_recorded).2
  = [[(0, 0); (0, 0); (0, 0); (1, 0); (1, 0); (1, 0); (2, 0); (2, 0); (2, 0)]%Z].
Proof. vm_compute. reflexivity. Qed.

End ReceiveDataExamples.

(** * Verifying a playback of a file that is not made of whole chunks *)

Section ComparePlayback.

Import Host.
Local Open Scope nat_scope.

Implicit Types (l : list sample).

(** X24: mirror verification reads both files in chunks of [buffer_size]
    samples, and the last chunk of a reference whose size is no multiple of
    [buffer_size] is a short one.  So when the received file goes on after
    a faithful copy of such a reference (as it does after a second
    iteration of the playback), the received chunk is longer than the
    reference chunk there, and [compare] raises the array mismatch at the
    start of the reference's last chunk, provided [num_samples_total]
    reaches beyond it: a faultless loopback of several iterations does not
    verify. *)
Theorem compare_ragged_playback rn cn l further total iters bs :
  0 < bs -> length l mod bs <> 0 -> further <> [] ->
  length l / bs * bs < total ->
  compare {| name := rn; content := l; pos := 0 |}
          {| name := cn; content := l ++ further; pos := 0 |} total iters bs
  = Raised (AssertionError
      (ArrayMismatch (length l / bs * bs)
         (drop (length l / bs * bs) l)
         (take bs (drop (length l / bs * bs) (l ++ further))))).
Proof.
  intros Hbs Hragged Hfurther Htotal.
  destruct (chunk_split (length l) bs Hbs) as (q & r & Hq & Hr & Hsplit & Hlt).
  rewrite Hq in *. rewrite Hr in Hragged.
  apply (compare_from_loop (q + 1)); [| discriminate].
  pose proof (compare_loop_equal_chunks q 1 rn cn l (l ++ further) 0 total iters bs 0)
    as Hchunks.
  cbn [Nat.add] in Hchunks. rewrite Hchunks; clear Hchunks.
  - assert (Hshort : take bs (drop (q * bs) l) = drop (q * bs) l)
      by (apply take_ge; rewrite length_drop; lia).
    assert (Hlong : length (drop (q * bs) l)
                    < length (take bs (drop (q * bs) (l ++ further)))).
    { rewrite length_take, !length_drop, length_app.
      destruct further as [| x further]; [congruence |]. cbn [length]. lia. }
    rewrite <- Hshort. rewrite <- Hshort in Hlong.
    apply compare_loop_mismatch; [exact Htotal | | |].
    + intros Hnil. rewrite Hshort in Hnil.
      apply (f_equal length) in Hnil. rewrite length_drop in Hnil.
      cbn [length] in Hnil. lia.
    + intros Hnil. rewrite Hnil in Hlong. cbn [length] in Hlong. lia.
    + intros Heq. rewrite <- Heq in Hlong. lia.
  - exact Hbs.
  - lia.
  - intros Hpos. nia.
  - cbn [Nat.add]. rewrite take_app_le by lia. reflexivity.
Qed.

Lemma compare_ragged_playback_witness :
  compare {| name := "in.dat";
             content := [(1, 0); (2, 0); (3, 0)]%Z; pos := 0 |}
          {| name := "out.dat";
             content := [(1, 0); (2, 0); (3, 0)]%Z ++ [(1, 0); (2, 0); (3, 0)]%Z;
             pos := 0 |} 6 2 2
  = Raised (AssertionError
      (ArrayMismatch (length [(1, 0); (2, 0); (3, 0)]%Z / 2 * 2)
         (drop (length [(1, 0); (2, 0); (3, 0)]%Z / 2 * 2)
            [(1, 0); (2, 0); (3, 0)]%Z)
         (take 2 (drop (length [(1, 0); (2, 0); (3, 0)]%Z / 2 * 2)
                    ([(1, 0); (2, 0); (3, 0)]%Z ++ [(1, 0); (2, 0); (3, 0)]%Z))))).
Proof.
  apply (compare_ragged_playback "in.dat" "out.dat" [(1, 0); (2, 0); (3, 0)]%Z
           [(1, 0); (2, 0); (3, 0)]%Z 6 2 2).
  - lia.
  - vm_compute. discriminate.
  - discriminate.
  - vm_compute. lia.
Defined.

(** Two iterations of a three-sample file, looped back without a fault
    and read in chunks of two: the mismatch is reported at offset 2. *)
Example ragged_playback_reports_offset_2 :
  reported_offset
    (compare {| name := "in.dat";
                content := [(1, 0); (2, 0); (3, 0)]%Z; pos := 0 |}
             {| name := "out.dat";
                content := [(1, 0); (2, 0); (3, 0); (1, 0); (2, 0); (3, 0)]%Z;
                pos := 0 |} 6 2 2)
  = Some 2.
Proof. vm_compute. reflexivity. Qed.

End ComparePlayback.
